(** * Embedding a Lua interpreter: the host programs of lua-tutorial

    Shallow embedding of [00-lua-state/hello-world.cpp] and
    [02-calling-lua-function/calling-lua-function.cpp].

    The host code is a sequence of calls into the Lua C API on one
    [lua_State].  The API itself is an external library; the part of it the
    host code uses is modelled below after the reference manual
    (Lua 5.2/5.3, the versions that have [LUA_ERRGCMM] and [luaL_traceback]).
    Script functions are opaque: every Lua closure is an index into a table
    of behaviours, so that every statement below holds for every script. *)

From Stdlib Require Import ZArith Lia.
From stdpp Require Import base list gmap strings pretty.

(** ** Values *)

(** C functions the host hands to the interpreter. *)
Inductive cfunction : Type :=
  | CF_messageHandler.

(** A Lua number is an integer or a float; a float is kept by the text
    [lua_tostring] gives for it, since the host never computes with one. *)
Inductive lua_Number : Type :=
  | LInteger (i : Z)
  | LFloat (text : string).

Inductive value : Type :=
  | VNil
  | VBoolean (b : bool)
  | VLightUserdata (p : Z)
  | VNumber (n : lua_Number)
  | VString (s : string)
  | VTable (ref : nat)
  | VFunction (closure : nat)
  | VCFunction (c : cfunction)
  | VUserdata (ref : nat)
  | VThread (ref : nat).

#[global] Instance cfunction_eq_dec : EqDecision cfunction.
Proof. solve_decision. Defined.

#[global] Instance lua_Number_eq_dec : EqDecision lua_Number.
Proof. solve_decision. Defined.

#[global] Instance value_eq_dec : EqDecision value.
Proof. solve_decision. Defined.

(** Status codes of [lua.h]. *)
Definition LUA_OK : Z := 0.
Definition LUA_YIELD : Z := 1.
Definition LUA_ERRRUN : Z := 2.
Definition LUA_ERRSYNTAX : Z := 3.
Definition LUA_ERRMEM : Z := 4.
Definition LUA_ERRGCMM : Z := 5.
Definition LUA_ERRERR : Z := 6.
Definition LUA_ERRFILE : Z := 7.
Definition LUA_MULTRET : Z := -1.

(** The kinds of error the interpreter can throw while it runs a function. *)
Inductive thrown : Type :=
  | ThrowRun
  | ThrowMem
  | ThrowGcmm
  | ThrowErr.

Definition status_code (t : thrown) : Z :=
  match t with
  | ThrowRun => LUA_ERRRUN
  | ThrowMem => LUA_ERRMEM
  | ThrowGcmm => LUA_ERRGCMM
  | ThrowErr => LUA_ERRERR
  end.

(** What running a function comes to: it returns its results, or it throws
    an error value; [frames] are the activation records that were live above
    the caller when the error was raised, innermost first. *)
Inductive outcome : Type :=
  | Returns (results : list value)
  | Throws (st : thrown) (err : value) (frames : list string).

(** A script function: from its arguments and the global environment to an
    outcome and the global environment it leaves. *)
Definition behaviour : Type :=
  list value -> gmap string value -> outcome * gmap string value.

(** ** Observable history *)

(** A piece of text sent to a stream: a literal, or a [const char *] that may
    be null. *)
Inductive piece : Type :=
  | Lit (s : string)
  | CStr (p : option string).

Inductive event : Type :=
  | EvCall (callee : value) (nargs nresults : Z)
  | EvPCall (callee : value) (nargs nresults msgh : Z)
  | EvHandler (handler : value) (err : value)
  | EvPanic (err : value)
  | EvClose
  | EvStdout (text : list piece)
  | EvStderr (text : list piece).

(** ** Interpreter state *)

(** [stack] is the value stack of the running C function, bottom first, so
    that index [1] is its head and [lua_gettop] is its length.  [callstack]
    holds the live activation records, innermost first, as [luaL_traceback]
    prints them.  [trace] is the history of the process. *)
Record lua_State : Type := mkState {
  stack : list value;
  globals : gmap string value;
  funcs : nat -> behaviour;
  callstack : list string;
  trace : list event
}.

Definition set_stack (s : list value) (L : lua_State) : lua_State :=
  mkState s (globals L) (funcs L) (callstack L) (trace L).

Definition set_globals (g : gmap string value) (L : lua_State) : lua_State :=
  mkState (stack L) g (funcs L) (callstack L) (trace L).

Definition set_callstack (c : list string) (L : lua_State) : lua_State :=
  mkState (stack L) (globals L) (funcs L) c (trace L).

Definition emit (e : event) (L : lua_State) : lua_State :=
  mkState (stack L) (globals L) (funcs L) (callstack L) (trace L ++ [e]).

Definition depth (L : lua_State) : nat := length (stack L).

(** ** Host computations *)

(** A host computation runs on the interpreter state and either finishes
    with a value or ends the process on the spot ([Abort]): the interpreter's
    panic on an error outside any protected call, which calls [abort]. *)
Inductive result (A : Type) : Type :=
  | Done (a : A) (L : lua_State)
  | Abort (L : lua_State).

Arguments Done {A} a L.
Arguments Abort {A} L.

Definition M (A : Type) : Type := lua_State -> result A.

Definition ret {A} (a : A) : M A := fun L => Done a L.

Definition bind {A B} (m : M A) (k : A -> M B) : M B :=
  fun L =>
    match m L with
    | Done a L' => k a L'
    | Abort L' => Abort L'
    end.

Declare Scope host_scope.
Delimit Scope host_scope with host.
Notation "x <- m ;; k" := (bind m (fun x => k))
  (at level 100, m at next level, right associativity) : host_scope.
Notation "m ;;; k" := (bind m (fun _ => k))
  (at level 100, right associativity) : host_scope.
Local Open Scope host_scope.

Definition final {A} (r : result A) : lua_State :=
  match r with
  | Done _ L => L
  | Abort L => L
  end.

Definition newline : string := String (Ascii.ascii_of_nat 10) EmptyString.

(** [std::cerr << ...] and [std::cout << ...]. *)
Definition cerr (text : list piece) : M unit :=
  fun L => Done tt (emit (EvStderr text) L).

Definition cout (text : list piece) : M unit :=
  fun L => Done tt (emit (EvStdout text) L).

(** ** The Lua C API, as the host code uses it *)

(** [lua_gettop]: the index of the top element, which is the stack depth. *)
Definition lua_gettop : M Z :=
  fun L => Done (Z.of_nat (length (stack L))) L.

(** An acceptable index is absolute ([1] is the bottom) or relative to the
    top ([-1] is the top). *)
Definition absindex (L : lua_State) (idx : Z) : Z :=
  if (0 <? idx)%Z then idx else (Z.of_nat (length (stack L)) + idx + 1)%Z.

(** The value at an index; [None] where the index names no slot. *)
Definition index2value (L : lua_State) (idx : Z) : option value :=
  let i := absindex L idx in
  if (1 <=? i)%Z then stack L !! Z.to_nat (i - 1) else None.

Definition push (v : value) : M unit :=
  fun L => Done tt (set_stack (stack L ++ [v]) L).

Definition lua_pushstring (s : string) : M unit := push (VString s).

Definition lua_pushcfunction (c : cfunction) : M unit := push (VCFunction c).

(** [lua_getglobal]: pushes the value of the global; an undefined global
    is [nil]. *)
Definition global_value (L : lua_State) (name : string) : value :=
  default VNil (globals L !! name).

Definition lua_getglobal (name : string) : M unit :=
  fun L => push (global_value L name) L.

(** [lua_isnil]: the value at the index is [nil] (an index that names no
    slot has type [LUA_TNONE], which is not [LUA_TNIL]). *)
Definition lua_isnil (idx : Z) : M bool :=
  fun L =>
    Done (match index2value L idx with Some VNil => true | _ => false end) L.

(** [lua_settop]: a non-negative index becomes the new depth, new slots are
    filled with [nil]; a negative one is relative to the top.  An index
    below the bottom is a misuse of the API. *)
Definition lua_settop (idx : Z) : M unit :=
  fun L =>
    let n := if (0 <=? idx)%Z then idx
             else (Z.of_nat (length (stack L)) + idx + 1)%Z in
    if (n <? 0)%Z then Abort L
    else Done tt (set_stack (resize (Z.to_nat n) VNil (stack L)) L).

(** [#define lua_pop(L,n) lua_settop(L, -(n)-1)] *)
Definition lua_pop (n : Z) : M unit := lua_settop (- n - 1).

(** [lua_remove]: removes the slot at the index and shifts down the slots
    above it. *)
Definition lua_remove (idx : Z) : M unit :=
  fun L =>
    let i := absindex L idx in
    if ((1 <=? i)%Z && (i <=? Z.of_nat (length (stack L)))%Z)%bool
    then Done tt (set_stack (delete (Z.to_nat (i - 1)) (stack L)) L)
    else Abort L.

(** The text of a number, as [lua_tostring] makes it. *)
Definition number_text (n : lua_Number) : string :=
  match n with
  | LInteger i => pretty i
  | LFloat text => text
  end.

(** The textual form of a value: strings and numbers have one, nothing
    else does. *)
Definition text_of (v : value) : option string :=
  match v with
  | VString s => Some s
  | VNumber n => Some (number_text n)
  | _ => None
  end.

(** [lua_tostring]: the string at the index; a number is converted to a
    string in its slot; for any other value the result is [NULL]. *)
Definition lua_tostring (idx : Z) : M (option string) :=
  fun L =>
    match index2value L idx with
    | Some (VString s) => Done (Some s) L
    | Some (VNumber n) =>
        let s := number_text n in
        Done (Some s)
          (set_stack (<[Z.to_nat (absindex L idx - 1) := VString s]> (stack L)) L)
    | _ => Done None L
    end.

(** [luaL_checkstring]: as [lua_tostring], but a value with no textual form
    raises an error; the host calls it outside any protected call, where an
    error is a panic. *)
Definition luaL_checkstring (idx : Z) : M string :=
  p <- lua_tostring idx ;;
  match p with
  | Some s => ret s
  | None =>
      fun L =>
        Abort (emit (EvPanic (VString "bad argument (string expected)")) L)
  end.

(** [luaL_traceback (L, L, msg, level)]: pushes a traceback of the call
    stack starting at [level]; a message that is not [NULL] is put at its
    beginning. *)
Definition traceback_text (msg : option string) (frames : list string) : string :=
  match msg with Some m => m +:+ newline | None => "" end
  +:+ "stack traceback:"
  +:+ String.concat "" (map (fun f => newline +:+ "	" +:+ f) frames).

Definition luaL_traceback (msg : option string) (level : Z) : M unit :=
  fun L =>
    push (VString (traceback_text msg (drop (Z.to_nat level) (callstack L)))) L.

(** The name of a value's type, as error messages print it. *)
Definition typename (v : value) : string :=
  match v with
  | VNil => "nil"
  | VBoolean _ => "boolean"
  | VLightUserdata _ | VUserdata _ => "userdata"
  | VNumber _ => "number"
  | VString _ => "string"
  | VTable _ => "table"
  | VFunction _ | VCFunction _ => "function"
  | VThread _ => "thread"
  end.

(** The last [n] values of a list. *)
Definition lastn {A} (n : nat) (l : list A) : list A :=
  drop (length l - n) l.

(** The results of a call adjusted to the declared count: padded with
    [nil] or cut; [LUA_MULTRET] keeps them all. *)
Definition adjust_results (nresults : Z) (rs : list value) : list value :=
  if (nresults <? 0)%Z then rs else resize (Z.to_nat nresults) VNil rs.

(** The activation record of a C function in a traceback. *)
Definition cframe (c : cfunction) : string := "[C]: in ?".

Section Calls.

(** The code of the host's C functions; a C function returns the number
    of results it leaves on top of its stack. *)
Variable cfn : cfunction -> M Z.

(** Running a callee on its arguments.  A C function gets a stack of its
    own that holds the arguments, and its activation record is the
    innermost one while it runs.  Anything else is not callable. *)
Definition invoke (f : value) (args : list value) : M outcome :=
  fun L =>
    match f with
    | VFunction c =>
        let '(o, g) := funcs L c args (globals L) in
        Done o (set_globals g L)
    | VCFunction c =>
        match cfn c (set_callstack (cframe c :: callstack L) (set_stack args L)) with
        | Done n L' =>
            Done (Returns (lastn (Z.to_nat n) (stack L')))
              (set_callstack (callstack L) (set_stack (stack L) L'))
        | Abort L' => Abort L'
        end
    | _ =>
        Done (Throws ThrowRun
                (VString ("attempt to call a " +:+ typename f +:+ " value")) [])
          L
    end.

(** The message handler runs at the point of the error, with the error
    value as its only argument; its first result replaces the error value.
    An error inside the handler escalates to [LUA_ERRERR]. *)
Definition run_handler (h err : value) (frames : list string) : M (thrown * value) :=
  fun L =>
    let L1 := emit (EvHandler h err)
                (set_callstack (frames ++ callstack L) L) in
    match invoke h [err] L1 with
    | Done (Returns rs) L2 =>
        Done (ThrowRun, default VNil (head rs))
          (set_callstack (callstack L) L2)
    | Done (Throws _ _ _) L2 =>
        Done (ThrowErr, VString "error in error handling")
          (set_callstack (callstack L) L2)
    | Abort L2 => Abort L2
    end.

(** The callee and its arguments are the top [nargs + 1] slots. *)
Definition callee_slot (L : lua_State) (nargs : Z) : nat :=
  (length (stack L) - Z.to_nat nargs - 1)%nat.

Definition well_placed (L : lua_State) (nargs : Z) : bool :=
  ((0 <=? nargs)%Z && (nargs + 1 <=? Z.of_nat (length (stack L)))%Z)%bool.

(** [lua_call]: pops the callee and its arguments and pushes the adjusted
    results.  An error is not caught: the interpreter panics and the
    process aborts. *)
Definition lua_call (nargs nresults : Z) : M unit :=
  fun L =>
    if well_placed L nargs then
      let base := take (callee_slot L nargs) (stack L) in
      let f := default VNil (stack L !! callee_slot L nargs) in
      let args := drop (S (callee_slot L nargs)) (stack L) in
      match invoke f args (emit (EvCall f nargs nresults) (set_stack base L)) with
      | Done (Returns rs) L' =>
          Done tt (set_stack (base ++ adjust_results nresults rs) L')
      | Done (Throws _ err _) L' =>
          Abort (emit (EvPanic err) (set_stack (base ++ [err]) L'))
      | Abort L' => Abort L'
      end
    else Abort L.

(** [lua_pcall]: as [lua_call], but an error is caught: the callee and its
    arguments are popped, one error value is pushed and the status is
    returned.  With [msgh] not [0], the value at that index is the message
    handler; it is called for runtime errors only. *)
Definition lua_pcall (nargs nresults msgh : Z) : M Z :=
  fun L =>
    if well_placed L nargs then
      let base := take (callee_slot L nargs) (stack L) in
      let f := default VNil (stack L !! callee_slot L nargs) in
      let args := drop (S (callee_slot L nargs)) (stack L) in
      let h := if (msgh =? 0)%Z then None else index2value L msgh in
      match invoke f args (emit (EvPCall f nargs nresults msgh) (set_stack base L)) with
      | Done (Returns rs) L' =>
          Done LUA_OK (set_stack (base ++ adjust_results nresults rs) L')
      | Done (Throws ThrowRun err frames) L' =>
          match h with
          | Some hv =>
              match run_handler hv err frames L' with
              | Done (st, err') L'' =>
                  Done (status_code st) (set_stack (base ++ [err']) L'')
              | Abort L'' => Abort L''
              end
          | None => Done LUA_ERRRUN (set_stack (base ++ [err]) L')
          end
      | Done (Throws st err _) L' =>
          Done (status_code st) (set_stack (base ++ [err]) L')
      | Abort L' => Abort L'
      end
    else Abort L.

End Calls.

(** ** Creating, loading, closing *)

(** What loading a piece of source gives: a compiled chunk (a closure), or a
    status and an error message. *)
Inductive load_result : Type :=
  | Compiled (chunk : nat)
  | LoadFailed (status : Z) (msg : string).

(** What the host program finds around it: whether a state can be allocated,
    the closures scripts can create, the standard library, the files on
    disk and the compiler. *)
Record host_env : Type := mkEnv {
  can_allocate : bool;
  closures : nat -> behaviour;
  stdlib : gmap string value;
  load_file : string -> load_result;
  load_string : string -> load_result
}.

(** [luaL_newstate]: a fresh state, or [NULL]. *)
Definition luaL_newstate (env : host_env) : option lua_State :=
  if can_allocate env then Some (mkState [] ∅ (closures env) [] []) else None.

(** [luaL_openlibs]: the standard library becomes global. *)
Definition luaL_openlibs (env : host_env) : M unit :=
  fun L => Done tt (set_globals (stdlib env ∪ globals L) L).

Definition load (r : load_result) : M Z :=
  match r with
  | Compiled c => push (VFunction c) ;;; ret LUA_OK
  | LoadFailed st msg => push (VString msg) ;;; ret st
  end.

Definition luaL_loadfile (env : host_env) (filename : string) : M Z :=
  load (load_file env filename).

Definition luaL_loadstring (env : host_env) (s : string) : M Z :=
  load (load_string env s).

Section Running.

Variable cfn : cfunction -> M Z.

(** [(luaL_loadfile(L, fn) || lua_pcall(L, 0, LUA_MULTRET, 0))] *)
Definition luaL_dofile (env : host_env) (filename : string) : M Z :=
  st <- luaL_loadfile env filename ;;
  if (st =? 0)%Z then
    st' <- lua_pcall cfn 0 LUA_MULTRET 0 ;;
    ret (if (st' =? 0)%Z then 0%Z else 1%Z)
  else ret 1%Z.

(** [(luaL_loadstring(L, s) || lua_pcall(L, 0, LUA_MULTRET, 0))] *)
Definition luaL_dostring (env : host_env) (s : string) : M Z :=
  st <- luaL_loadstring env s ;;
  if (st =? 0)%Z then
    st' <- lua_pcall cfn 0 LUA_MULTRET 0 ;;
    ret (if (st' =? 0)%Z then 0%Z else 1%Z)
  else ret 1%Z.

End Running.

(** [lua_close]: releases the state. *)
Definition lua_close : M unit :=
  fun L => Done tt (emit EvClose L).

(** How a run of a host program ends: with the exit code [main] returned, or
    aborted ([None]); and what it did. *)
Record process : Type := mkProcess {
  exit_code : option Z;
  history : list event
}.

Definition run (m : M Z) (L : lua_State) : process :=
  match m L with
  | Done code L' => mkProcess (Some code) (trace L')
  | Abort L' => mkProcess None (trace L')
  end.

(** How often the state was released. *)
Definition is_close (e : event) : bool :=
  match e with EvClose => true | _ => false end.

Definition closes (p : process) : nat :=
  length (filter (fun e => is_close e = true) (history p)).

(** ** hello-world.cpp *)

Module HelloWorld.

(** The program hands no C function to the interpreter. *)
Definition cfunctions (c : cfunction) : M Z := ret 0%Z.

Definition main (env : host_env) : process :=
  match luaL_newstate env with
  | None =>
      mkProcess (Some (-1)%Z)
        [EvStderr [Lit ("Failed to create Lua state" +:+ newline)]]
  | Some L =>
      run
        (luaL_openlibs env ;;;
         r <- luaL_dostring cfunctions env "print('Hello world!')" ;;
         if negb (r =? 0)%Z then
           cerr [Lit ("Failed to do string" +:+ newline)] ;;;
           ret (-1)%Z
         else
           lua_close ;;;
           ret 0%Z)
        L
  end.

End HelloWorld.

(** ** calling-lua-function.cpp *)

Module CallingLuaFunction.

Definition messageHandler : M Z :=
  errorMsg <- lua_tostring (-1) ;;
  (* push traceback *)
  luaL_traceback errorMsg 1 ;;;
  (* remove the original error object *)
  lua_remove (-2) ;;;
  ret 1%Z.

(** The C functions of the program. *)
Definition cfunctions (c : cfunction) : M Z :=
  match c with
  | CF_messageHandler => messageHandler
  end.

Definition callHello : M unit :=
  (* push the function *)
  lua_getglobal "hello" ;;;
  isnil <- lua_isnil (-1) ;;
  if isnil then
    cerr [Lit ("Global function hello not found" +:+ newline)]
  else
    (* call with no arguments *)
    lua_call cfunctions 0 0.

Definition callSwap : M unit :=
  (* push the function *)
  lua_getglobal "swap" ;;;
  (* push arguments *)
  lua_pushstring "red" ;;;
  lua_pushstring "green" ;;;
  (* call (2 arguments, 2 results) *)
  lua_call cfunctions 2 2 ;;;
  (* get results *)
  first <- lua_tostring (-2) ;;
  second <- lua_tostring (-1) ;;
  cout [Lit "swap() returned "; CStr first; Lit " and "; CStr second;
        Lit newline] ;;;
  lua_pop 2.

(** [pcallFail] up to the point where [lua_pcall] has returned: the status,
    or [None] when the function returned before the call. *)
Definition pcallFail_invoke : M (option Z) :=
  (* push the function *)
  lua_getglobal "fail" ;;;
  isnil <- lua_isnil (-1) ;;
  if isnil then
    cerr [Lit ("Global function fail not found" +:+ newline)] ;;;
    ret None
  else
    (* call with no arguments, no results *)
    result <- lua_pcall cfunctions 0 0 0 ;;
    ret (Some result).

(** The rest of [pcallFail]: check result. *)
Definition pcallFail_check (result : Z) : M unit :=
  if (result =? LUA_ERRRUN)%Z then
    err <- lua_tostring (-1) ;;
    cerr [Lit "Error: "; CStr err; Lit newline] ;;;
    (* pop the error object *)
    lua_pop 1
  else if (result =? LUA_ERRMEM)%Z then
    cerr [Lit ("LUA_ERRMEM" +:+ newline)]
  else if (result =? LUA_ERRERR)%Z then
    cerr [Lit ("LUA_ERRERR" +:+ newline)]
  else if (result =? LUA_ERRGCMM)%Z then
    cerr [Lit ("LUA_ERRGCMM" +:+ newline)]
  else ret tt.

Definition pcallFail : M unit :=
  r <- pcallFail_invoke ;;
  match r with
  | None => ret tt
  | Some result => pcallFail_check result
  end.

(** [pcallSwap] up to the point where [lua_pcall] has returned: the saved
    [top] and the status. *)
Definition pcallSwap_invoke : M (Z * Z) :=
  top <- lua_gettop ;;
  (* push the error handler *)
  lua_pushcfunction CF_messageHandler ;;;
  handlerIndex <- lua_gettop ;;
  (* push the function *)
  lua_getglobal "swap" ;;;
  (* push arguments *)
  lua_pushstring "red" ;;;
  (* call *)
  result <- lua_pcall cfunctions 1 2 handlerIndex ;;
  ret (top, result).

(** The rest of [pcallSwap]: check result. *)
Definition pcallSwap_check (top result : Z) : M unit :=
  if (result =? LUA_ERRRUN)%Z then
    (* traceback at this point *)
    err <- lua_tostring (-1) ;;
    cerr [CStr err; Lit newline] ;;;
    (* pop the error object *)
    lua_pop 1
  else if (result =? LUA_ERRMEM)%Z then
    cerr [Lit ("LUA_ERRMEM" +:+ newline)]
  else if (result =? LUA_ERRERR)%Z then
    cerr [Lit ("LUA_ERRERR" +:+ newline)]
  else if (result =? LUA_ERRGCMM)%Z then
    cerr [Lit ("LUA_ERRGCMM" +:+ newline)]
  else
    (* LUA_OK: revert the stack *)
    lua_settop top.

Definition pcallSwap : M unit :=
  tr <- pcallSwap_invoke ;;
  pcallSwap_check (fst tr) (snd tr).

Definition main (env : host_env) : process :=
  match luaL_newstate env with
  | None =>
      mkProcess (Some (-1)%Z)
        [EvStderr [Lit ("Failed to create Lua state" +:+ newline)]]
  | Some L =>
      run
        (luaL_openlibs env ;;;
         (* load functions *)
         r <- luaL_dofile cfunctions env "calling-lua-function.lua" ;;
         if negb (r =? 0)%Z then
           error <- luaL_checkstring (-1) ;;
           cout [Lit "Error: "; Lit error; Lit newline] ;;;
           ret (-1)%Z
         else
           callHello ;;;
           callSwap ;;;
           pcallFail ;;;
           pcallSwap ;;;
           (* destroy the state *)
           lua_close ;;;
           ret 0%Z)
        L
  end.

End CallingLuaFunction.

Import CallingLuaFunction.

(** The slot [pcallSwap] pushes for its message handler. *)
Definition handler_slot : value := VCFunction CF_messageHandler.

(** The two functions of the host that make a protected call, each up to
    the point where [lua_pcall] has returned, with the status it returned
    ([None]: the function returned before the call). *)
Inductive protected_call : Type :=
  | PcallFail
  | PcallSwap.

Definition upto_pcall (b : protected_call) : M (option Z) :=
  match b with
  | PcallFail => pcallFail_invoke
  | PcallSwap => tr <- pcallSwap_invoke ;; ret (Some (snd tr))
  end.

(** The slots the function pushes before the callee: [pcallSwap] pushes its
    message handler, [pcallFail] passes [0] for [msgh] and pushes nothing. *)
Definition slots_below_callee (b : protected_call) : nat :=
  match b with
  | PcallFail => 0
  | PcallSwap => 1
  end.

(** The result count the function declares to [lua_pcall]. *)
Definition declared_results (b : protected_call) : nat :=
  match b with
  | PcallFail => 0
  | PcallSwap => 2
  end.

(** ** A sample script

    A script in the manner of [calling-lua-function.lua], used to run the
    host code on concrete states: closure [0] is the chunk, which defines
    the globals [hello], [swap] and [fail]. *)

Definition sample_hello : behaviour :=
  fun _ g => (Returns [], g).

Definition sample_swap : behaviour :=
  fun args g =>
    match args with
    | [VString a; VString b] => (Returns [VString b; VString a], g)
    | _ =>
        (Throws ThrowRun
           (VString "calling-lua-function.lua:6: attempt to concatenate a nil value (local 'b')")
           ["calling-lua-function.lua:6: in function 'swap'"],
         g)
    end.

Definition sample_fail : behaviour :=
  fun _ g =>
    (Throws ThrowRun (VString "calling-lua-function.lua:11: failed")
       ["[C]: in function 'error'";
        "calling-lua-function.lua:11: in function 'fail'"],
     g).

Definition sample_chunk : behaviour :=
  fun _ g =>
    (Returns [],
     <["hello" := VFunction 1]>
       (<["swap" := VFunction 2]> (<["fail" := VFunction 3]> g))).

Definition sample_closures (c : nat) : behaviour :=
  match c with
  | 0 => sample_chunk
  | 1 => sample_hello
  | 2 => sample_swap
  | _ => sample_fail
  end.

(** A state in which the script has been loaded, with one value already on
    the stack. *)
Definition loaded : lua_State :=
  mkState [VBoolean true]
    (<["hello" := VFunction 1]>
       (<["swap" := VFunction 2]> (<["fail" := VFunction 3]> ∅)))
    sample_closures [] [].

(** The same with a [swap] that only returns its arguments in reverse
    order, so that a missing argument comes back as [nil]. *)
Definition plain_swap : behaviour :=
  fun args g =>
    match args with
    | [] => (Returns [VNil; VNil], g)
    | [a] => (Returns [VNil; a], g)
    | a :: b :: _ => (Returns [b; a], g)
    end.

Definition plain_closures (c : nat) : behaviour :=
  match c with
  | 2 => plain_swap
  | _ => sample_closures c
  end.

Definition loaded_plain : lua_State :=
  mkState [VBoolean true] (globals loaded) plain_closures [] [].

(** A state in which no script has been loaded. *)
Definition blank : lua_State :=
  mkState [VBoolean true] ∅ sample_closures [] [].

(** A script whose [fail] clears the global [swap] before it raises. *)
Definition clearing_fail : behaviour :=
  fun _ g =>
    (Throws ThrowRun (VString "calling-lua-function.lua:11: failed")
       ["calling-lua-function.lua:11: in function 'fail'"],
     delete "swap" g).

Definition clearing_closures (c : nat) : behaviour :=
  match c with
  | 3 => clearing_fail
  | _ => sample_closures c
  end.

Definition clearing_env : host_env :=
  mkEnv true clearing_closures ∅ (fun _ => Compiled 0) (fun _ => Compiled 1).

(** A script that defines nothing. *)
Definition silent_chunk : behaviour :=
  fun _ g => (Returns [], g).

Definition silent_env : host_env :=
  mkEnv true (fun _ => silent_chunk) ∅ (fun _ => Compiled 0)
    (fun _ => Compiled 0).

(** An environment where everything works, and one where no source can be
    loaded. *)
Definition working_env : host_env :=
  mkEnv true sample_closures ∅ (fun _ => Compiled 0) (fun _ => Compiled 1).

Definition broken_env : host_env :=
  mkEnv true sample_closures ∅
    (fun f => LoadFailed LUA_ERRFILE ("cannot open " +:+ f))
    (fun _ => LoadFailed LUA_ERRSYNTAX "syntax error near <eof>").

(** ** Counting releases, repeating calls *)

(** How many times a history releases the state. *)
Definition releases (t : list event) : nat :=
  length (filter (fun e => is_close e = true) t).

(** A computation that never releases the state, however it ends. *)
Definition keeps_open {A} (m : M A) : Prop :=
  forall L, releases (trace (final (m L))) = releases (trace L).

(** How the body of a [main] relates its exit code to the releases it adds
    to the [n] made before it: one more when it returns [0], none when it
    returns anything else or the process aborts. *)
Definition released_iff_zero (r : result Z) (n : nat) : Prop :=
  match r with
  | Done code L =>
      (code = 0%Z /\ releases (trace L) = S n)
      \/ (code <> 0%Z /\ releases (trace L) = n)
  | Abort L => releases (trace L) = n
  end.


(** The line [pcallFail] and [pcallSwap] print for a failure that is not a
    runtime error. *)
Definition status_line (st : thrown) : string :=
  match st with
  | ThrowRun => ""
  | ThrowMem => "LUA_ERRMEM" +:+ newline
  | ThrowGcmm => "LUA_ERRGCMM" +:+ newline
  | ThrowErr => "LUA_ERRERR" +:+ newline
  end.

(** ** More sample states *)

(** A script function that runs out of memory. *)
Definition sample_oom : behaviour :=
  fun _ g => (Throws ThrowMem (VString "not enough memory") [], g).

(** A script function that raises a table. *)
Definition sample_raise_table : behaviour :=
  fun _ g => (Throws ThrowRun (VTable 0) [], g).

(** The loaded state with every closure running out of memory. *)
Definition exhausted : lua_State :=
  mkState [VBoolean true] (globals loaded) (fun _ => sample_oom) [] [].


Definition hello_raises : lua_State :=
  mkState [VBoolean true] (<["hello" := VFunction 3]> ∅) sample_closures [] [].

(** A state whose [fail] returns, and one whose [swap] raises whatever it
    is given. *)
Definition fail_returns : lua_State :=
  mkState [VBoolean true] (<["fail" := VFunction 1]> ∅) sample_closures [] [].

Definition swap_raises : lua_State :=
  mkState [VBoolean true] (<["swap" := VFunction 3]> ∅) sample_closures [] [].

(** A state whose [swap] returns nothing. *)
Definition swap_returns_nothing : lua_State :=
  mkState [VBoolean true] (<["swap" := VFunction 1]> ∅) sample_closures [] [].

(** An environment whose chunk raises a table while it runs, and one whose
    chunk raises a string. *)
Definition table_raising_env : host_env :=
  mkEnv true (fun _ => sample_raise_table) ∅ (fun _ => Compiled 0)
    (fun _ => Compiled 0).

Definition string_raising_env : host_env :=
  mkEnv true (fun _ => sample_fail) ∅ (fun _ => Compiled 0)
    (fun _ => Compiled 0).

(** * Properties *)

(** ** Stack indices *)

Lemma set_stack_twice s s' L : set_stack s (set_stack s' L) = set_stack s L.
Proof. reflexivity. Qed.

Lemma set_stack_same L : set_stack (stack L) L = L.
Proof. by destruct L. Qed.

Lemma absindex_neg L (k : Z) :
  (k <= 0)%Z -> absindex L k = (Z.of_nat (length (stack L)) + k + 1)%Z.
Proof.
  intros Hk. unfold absindex.
  destruct (0 <? k)%Z eqn:E; [apply Z.ltb_lt in E; lia | reflexivity].
Qed.

Lemma absindex_pos L (k : Z) : (0 < k)%Z -> absindex L k = k.
Proof.
  intros Hk. unfold absindex.
  destruct (0 <? k)%Z eqn:E; [reflexivity | apply Z.ltb_ge in E; lia].
Qed.

(** Index [-1] is the top slot. *)
Lemma index2value_top L s v :
  stack L = s ++ [v] -> index2value L (-1) = Some v.
Proof.
  intros Hs. unfold index2value. rewrite absindex_neg by lia.
  rewrite Hs, length_app. simpl length.
  replace (Z.of_nat (length s + 1) + -1 + 1)%Z with (Z.of_nat (length s) + 1)%Z by lia.
  destruct (1 <=? Z.of_nat (length s) + 1)%Z eqn:E;
    [| apply Z.leb_gt in E; lia].
  replace (Z.to_nat (Z.of_nat (length s) + 1 - 1)) with (length s) by lia.
  apply list_lookup_middle. reflexivity.
Qed.

(** Index [-2] is the slot below the top. *)
Lemma index2value_below_top L s a b :
  stack L = s ++ [a; b] -> index2value L (-2) = Some a.
Proof.
  intros Hs. unfold index2value. rewrite absindex_neg by lia.
  rewrite Hs, length_app. simpl length.
  replace (Z.of_nat (length s + 2) + -2 + 1)%Z with (Z.of_nat (length s) + 1)%Z by lia.
  destruct (1 <=? Z.of_nat (length s) + 1)%Z eqn:E;
    [| apply Z.leb_gt in E; lia].
  replace (Z.to_nat (Z.of_nat (length s) + 1 - 1)) with (length s) by lia.
  apply list_lookup_middle. reflexivity.
Qed.

(** An absolute index just above a prefix of the stack. *)
Lemma index2value_abs L s v t :
  stack L = s ++ v :: t ->
  index2value L (Z.of_nat (length s) + 1) = Some v.
Proof.
  intros Hs. unfold index2value. rewrite absindex_pos by lia.
  destruct (1 <=? Z.of_nat (length s) + 1)%Z eqn:E;
    [| apply Z.leb_gt in E; lia].
  replace (Z.to_nat (Z.of_nat (length s) + 1 - 1)) with (length s) by lia.
  rewrite Hs. apply list_lookup_middle. reflexivity.
Qed.

(** [lua_pop n] drops the top [n] slots. *)
Lemma lua_pop_app L s t :
  stack L = s ++ t ->
  lua_pop (Z.of_nat (length t)) L = Done tt (set_stack s L).
Proof.
  intros Hs. unfold lua_pop, lua_settop.
  destruct (0 <=? - Z.of_nat (length t) - 1)%Z eqn:E;
    [apply Z.leb_le in E; lia |].
  rewrite Hs, length_app.
  replace (Z.of_nat (length s + length t) + (- Z.of_nat (length t) - 1) + 1)%Z
    with (Z.of_nat (length s)) by lia.
  destruct (Z.of_nat (length s) <? 0)%Z eqn:E'; [apply Z.ltb_lt in E'; lia |].
  rewrite Nat2Z.id, resize_le by (rewrite length_app; lia).
  by rewrite take_app_length.
Qed.

(** [lua_settop] back to the depth of a prefix. *)
Lemma lua_settop_app L s t :
  stack L = s ++ t ->
  lua_settop (Z.of_nat (length s)) L = Done tt (set_stack s L).
Proof.
  intros Hs. unfold lua_settop.
  destruct (0 <=? Z.of_nat (length s))%Z eqn:E; [| apply Z.leb_gt in E; lia].
  destruct (Z.of_nat (length s) <? 0)%Z eqn:E'; [apply Z.ltb_lt in E'; lia |].
  rewrite Hs, Nat2Z.id, resize_le by (rewrite length_app; lia).
  by rewrite take_app_length.
Qed.

(** [lua_tostring] at the top: the text of the value, the slot converted. *)
Lemma lua_tostring_top L s v :
  stack L = s ++ [v] ->
  exists v', lua_tostring (-1) L = Done (text_of v) (set_stack (s ++ [v']) L).
Proof.
  intros Hs. unfold lua_tostring. rewrite (index2value_top L s v Hs).
  destruct v;
    try (eexists; rewrite <- Hs, set_stack_same; reflexivity).
  eexists. simpl. rewrite absindex_neg by lia. rewrite Hs, length_app. simpl length.
  replace (Z.to_nat (Z.of_nat (length s + 1) + -1 + 1 - 1)) with (length s + 0)%nat by lia.
  rewrite insert_app_r. reflexivity.
Qed.

(** ** Calls *)

Section CallLayout.

Variable cfn : cfunction -> M Z.

Lemma call_layout L base f args nargs :
  stack L = base ++ f :: args ->
  Z.of_nat (length args) = nargs ->
  well_placed L nargs = true
  /\ take (callee_slot L nargs) (stack L) = base
  /\ stack L !! callee_slot L nargs = Some f
  /\ drop (S (callee_slot L nargs)) (stack L) = args.
Proof.
  intros Hs Hn.
  assert (Hslot : callee_slot L nargs = length base).
  { unfold callee_slot. rewrite Hs, length_app. simpl. lia. }
  rewrite Hslot, Hs. repeat split.
  - unfold well_placed. rewrite Hs, length_app. simpl length.
    apply andb_true_iff. split; [apply Z.leb_le | apply Z.leb_le]; lia.
  - apply take_app_length.
  - by apply list_lookup_middle.
  - change (base ++ f :: args) with (base ++ [f] ++ args).
    rewrite app_assoc.
    replace (S (length base)) with (length (base ++ [f]))
      by (rewrite length_app; simpl; lia).
    apply drop_app_length.
Qed.

(** [lua_call] on a stack that ends with the callee and its arguments. *)
Lemma lua_call_frame L base f args nargs nresults :
  stack L = base ++ f :: args ->
  Z.of_nat (length args) = nargs ->
  lua_call cfn nargs nresults L =
    match invoke cfn f args (emit (EvCall f nargs nresults) (set_stack base L)) with
    | Done (Returns rs) L' =>
        Done tt (set_stack (base ++ adjust_results nresults rs) L')
    | Done (Throws _ err _) L' =>
        Abort (emit (EvPanic err) (set_stack (base ++ [err]) L'))
    | Abort L' => Abort L'
    end.
Proof.
  intros Hs Hn.
  destruct (call_layout L base f args nargs Hs Hn) as (Hw & Ht & Hf & Hd).
  unfold lua_call. rewrite Hw, Ht, Hf, Hd. reflexivity.
Qed.

(** [lua_pcall] on a stack that ends with the callee and its arguments. *)
Lemma lua_pcall_frame L base f args nargs nresults msgh :
  stack L = base ++ f :: args ->
  Z.of_nat (length args) = nargs ->
  lua_pcall cfn nargs nresults msgh L =
    match invoke cfn f args
            (emit (EvPCall f nargs nresults msgh) (set_stack base L)) with
    | Done (Returns rs) L' =>
        Done LUA_OK (set_stack (base ++ adjust_results nresults rs) L')
    | Done (Throws ThrowRun err frames) L' =>
        match (if (msgh =? 0)%Z then None else index2value L msgh) with
        | Some hv =>
            match run_handler cfn hv err frames L' with
            | Done (st, err') L'' =>
                Done (status_code st) (set_stack (base ++ [err']) L'')
            | Abort L'' => Abort L''
            end
        | None => Done LUA_ERRRUN (set_stack (base ++ [err]) L')
        end
    | Done (Throws st err _) L' =>
        Done (status_code st) (set_stack (base ++ [err]) L')
    | Abort L' => Abort L'
    end.
Proof.
  intros Hs Hn.
  destruct (call_layout L base f args nargs Hs Hn) as (Hw & Ht & Hf & Hd).
  unfold lua_pcall. rewrite Hw, Ht, Hf, Hd. reflexivity.
Qed.

(** The status is [LUA_OK] only when the callee returned. *)
Lemma status_code_not_ok st : status_code st <> LUA_OK.
Proof. by destruct st. Qed.

(** What [lua_pcall] leaves when it returns: on [LUA_OK] the declared
    number of results in place of the callee and its arguments, otherwise
    one error value. *)
Lemma lua_pcall_stack L base f args nargs nresults msgh result L' :
  stack L = base ++ f :: args ->
  Z.of_nat (length args) = nargs ->
  lua_pcall cfn nargs nresults msgh L = Done result L' ->
  (result = LUA_OK /\ exists rs, stack L' = base ++ adjust_results nresults rs)
  \/ (result <> LUA_OK /\ exists err, stack L' = base ++ [err]).
Proof.
  intros Hs Hn Hp. rewrite (lua_pcall_frame L base f args nargs nresults msgh Hs Hn) in Hp.
  destruct (invoke cfn f args _) as [[rs | st err frames] L1 | L1]; [| | done].
  - inversion Hp; subst. left. split; [done |]. by exists rs.
  - right.
    destruct st.
    + destruct (if (msgh =? 0)%Z then None else index2value L msgh) as [hv |].
      * destruct (run_handler cfn hv err frames L1) as [[st' err'] L2 | L2]; [| done].
        inversion Hp; subst. split; [apply status_code_not_ok |]. by exists err'.
      * inversion Hp; subst. split; [done |]. by exists err.
    + inversion Hp; subst. split; [done |]. by exists err.
    + inversion Hp; subst. split; [done |]. by exists err.
    + inversion Hp; subst. split; [done |]. by exists err.
Qed.

End CallLayout.

(** ** The message handler *)

Lemma lua_remove_below_top L s a b :
  stack L = s ++ [a; b] ->
  lua_remove (-2) L = Done tt (set_stack (s ++ [b]) L).
Proof.
  intros Hs. unfold lua_remove. rewrite absindex_neg by lia.
  rewrite Hs, length_app. simpl length.
  replace (Z.of_nat (length s + 2) + -2 + 1)%Z with (Z.of_nat (length s) + 1)%Z by lia.
  destruct (1 <=? Z.of_nat (length s) + 1)%Z eqn:E1;
    [| apply Z.leb_gt in E1; lia].
  destruct (Z.of_nat (length s) + 1 <=? Z.of_nat (length s + 2))%Z eqn:E2;
    [| apply Z.leb_gt in E2; lia].
  simpl andb. cbv iota.
  replace (Z.to_nat (Z.of_nat (length s) + 1 - 1)) with (length s) by lia.
  by rewrite delete_middle.
Qed.

(** The handler on a stack whose top is the error value: it returns [1] and
    leaves the traceback where the error value was. *)
Lemma messageHandler_run L pre e :
  stack L = pre ++ [e] ->
  messageHandler L =
    Done 1%Z
      (set_stack
         (pre ++ [VString (traceback_text (text_of e) (drop 1 (callstack L)))]) L).
Proof.
  intros Hs. unfold messageHandler, bind.
  destruct (lua_tostring_top L pre e Hs) as [v' ->].
  unfold luaL_traceback, push. cbn [stack set_stack callstack].
  erewrite lua_remove_below_top;
    [| cbn [stack set_stack]; rewrite <- app_assoc; reflexivity].
  reflexivity.
Qed.

(** Called by the interpreter, the handler is a callee that returns the
    traceback as its only result. *)
Lemma invoke_messageHandler L e :
  invoke cfunctions (VCFunction CF_messageHandler) [e] L =
    Done
      (Returns [VString (traceback_text (text_of e) (callstack L))])
      L.
Proof.
  unfold invoke. cbn [cfunctions].
  rewrite (messageHandler_run _ [] e) by reflexivity.
  cbn. by destruct L.
Qed.

Lemma run_messageHandler L e frames :
  run_handler cfunctions (VCFunction CF_messageHandler) e frames L =
    Done
      (ThrowRun, VString (traceback_text (text_of e) (frames ++ callstack L)))
      (emit (EvHandler (VCFunction CF_messageHandler) e) L).
Proof.
  unfold run_handler. rewrite invoke_messageHandler. cbn. by destruct L.
Qed.

(** ** pcallSwap *)

Lemma index2value_saved_top L s v t :
  stack L = (s ++ [v]) ++ t ->
  index2value L (Z.of_nat (length (s ++ [v]))) = Some v.
Proof.
  intros Hs. rewrite length_app. simpl length.
  replace (Z.of_nat (length s + 1)) with (Z.of_nat (length s) + 1)%Z by lia.
  apply (index2value_abs L s v t). by rewrite Hs, <- app_assoc.
Qed.

Lemma adjust_results_two rs :
  exists r1 r2, adjust_results 2 rs = [r1; r2].
Proof.
  destruct rs as [| a [| b rs]];
    [exists VNil, VNil | exists a, VNil | exists a, b]; try reflexivity.
  by destruct rs.
Qed.

(** [invoke] on one argument never aborts. *)
Lemma invoke_one_arg f a L :
  exists o L', invoke cfunctions f [a] L = Done o L' /\ stack L' = stack L.
Proof.
  destruct f; try (eexists _, _; split; reflexivity).
  - cbn. destruct (funcs L closure [a] (globals L)) as [o g].
    eexists _, _; split; reflexivity.
  - destruct c. rewrite invoke_messageHandler. eexists _, _; split; reflexivity.
Qed.

(** [pcallSwap] up to the return of [lua_pcall], in one step. *)
Lemma pcallSwap_invoke_run L :
  pcallSwap_invoke L =
    let base := stack L ++ [handler_slot] in
    let f := global_value L "swap" in
    let msgh := Z.of_nat (length base) in
    match invoke cfunctions f [VString "red"]
            (emit (EvPCall f 1 2 msgh) (set_stack base L)) with
    | Done (Returns rs) L' =>
        Done (Z.of_nat (depth L), LUA_OK)
          (set_stack (base ++ adjust_results 2 rs) L')
    | Done (Throws ThrowRun err frames) L' =>
        Done (Z.of_nat (depth L), LUA_ERRRUN)
          (set_stack
             (base ++ [VString (traceback_text (text_of err)
                                  (frames ++ callstack L'))])
             (emit (EvHandler handler_slot err) L'))
    | Done (Throws st err _) L' =>
        Done (Z.of_nat (depth L), status_code st) (set_stack (base ++ [err]) L')
    | Abort L' => Abort L'
    end.
Proof.
  unfold pcallSwap_invoke, bind, lua_gettop, lua_pushcfunction, lua_getglobal,
    lua_pushstring, push.
  cbn [stack set_stack].
  erewrite (lua_pcall_frame cfunctions _ (stack L ++ [handler_slot])
              (global_value _ "swap") [VString "red"]);
    [| cbn [stack set_stack]; rewrite <- app_assoc; reflexivity | reflexivity].
  change (global_value (set_stack _ L) "swap") with (global_value L "swap").
  rewrite !set_stack_twice.
  erewrite index2value_saved_top by (cbn [stack set_stack]; rewrite <- app_assoc; reflexivity).
  destruct (Z.of_nat (length (stack L ++ [VCFunction CF_messageHandler])) =? 0)%Z eqn:E.
  { apply Z.eqb_eq in E. rewrite length_app in E. simpl in E. lia. }
  cbv zeta. unfold handler_slot, depth.
  destruct (invoke cfunctions _ _ _) as [[rs | st err frames] L1 | L1];
    [reflexivity | | reflexivity].
  destruct st; try reflexivity.
  rewrite run_messageHandler. reflexivity.
Qed.

(** [lua_pcall] in [pcallSwap] always returns; the handler slot stays below
    what it leaves. *)
Lemma pcallSwap_invoke_spec L :
  exists result L1,
    pcallSwap_invoke L = Done (Z.of_nat (depth L), result) L1
    /\ ((result = LUA_OK
         /\ exists r1 r2, stack L1 = stack L ++ [handler_slot; r1; r2])
        \/ (result <> LUA_OK
            /\ exists err, stack L1 = stack L ++ [handler_slot; err])).
Proof.
  rewrite pcallSwap_invoke_run. cbv zeta.
  destruct (invoke_one_arg (global_value L "swap") (VString "red")
              (emit (EvPCall (global_value L "swap") 1 2
                       (Z.of_nat (length (stack L ++ [handler_slot]))))
                 (set_stack (stack L ++ [handler_slot]) L)))
    as (o & L' & -> & _).
  destruct o as [rs | st err frames].
  - eexists _, _. split; [reflexivity |]. left. split; [reflexivity |].
    destruct (adjust_results_two rs) as (r1 & r2 & ->).
    exists r1, r2. cbn [stack set_stack]. by rewrite <- app_assoc.
  - destruct st; eexists _, _; (split; [reflexivity |]); right;
      (split; [done |]); eexists; cbn [stack set_stack];
      by rewrite <- app_assoc.
Qed.

(** The branch of [pcallSwap] for [LUA_ERRRUN] prints the error value and
    pops it, and nothing more. *)
Lemma pcallSwap_check_errrun L s err top :
  stack L = s ++ [err] ->
  pcallSwap_check top LUA_ERRRUN L =
    Done tt (set_stack s (emit (EvStderr [CStr (text_of err); Lit newline]) L)).
Proof.
  intros Hs. unfold pcallSwap_check.
  change (LUA_ERRRUN =? LUA_ERRRUN)%Z with true. cbv iota. unfold bind.
  destruct (lua_tostring_top L s err Hs) as [v' ->].
  unfold cerr.
  rewrite (lua_pop_app _ s [v']) by reflexivity.
  reflexivity.
Qed.


(** ** pcallFail *)

Lemma lua_isnil_top L s v :
  stack L = s ++ [v] ->
  lua_isnil (-1) L = Done (match v with VNil => true | _ => false end) L.
Proof.
  intros Hs. unfold lua_isnil. by rewrite (index2value_top L s v Hs).
Qed.

(** With no global [fail], [pcallFail] reports it and returns before any
    call; the [nil] it looked up stays on the stack. *)
Lemma pcallFail_invoke_nil L :
  global_value L "fail" = VNil ->
  pcallFail_invoke L =
    Done None
      (emit (EvStderr [Lit ("Global function fail not found" +:+ newline)])
         (set_stack (stack L ++ [VNil]) L)).
Proof.
  intros Hg. unfold pcallFail_invoke, bind, lua_getglobal, push.
  rewrite (lua_isnil_top _ (stack L) (global_value L "fail")) by reflexivity.
  rewrite Hg. reflexivity.
Qed.

(** Otherwise it makes the protected call. *)
Lemma pcallFail_invoke_run L :
  global_value L "fail" <> VNil ->
  pcallFail_invoke L =
    let f := global_value L "fail" in
    match invoke cfunctions f [] (emit (EvPCall f 0 0 0) L) with
    | Done (Returns rs) L' => Done (Some LUA_OK) (set_stack (stack L) L')
    | Done (Throws st err _) L' =>
        Done (Some (status_code st)) (set_stack (stack L ++ [err]) L')
    | Abort L' => Abort L'
    end.
Proof.
  intros Hg. unfold pcallFail_invoke, bind, lua_getglobal, push.
  rewrite (lua_isnil_top _ (stack L) (global_value L "fail")) by reflexivity.
  destruct (global_value L "fail") as [] eqn:Ef; try done.
  all: erewrite (lua_pcall_frame cfunctions _ (stack L) _ []) by reflexivity.
  all: cbv zeta; change (0 =? 0)%Z with true; cbv iota.
  all: match goal with
       | |- context [invoke ?c ?f ?a ?S] =>
           change (invoke c f a S) with (invoke c f a (emit (EvPCall f 0 0 0) L));
           destruct (invoke c f a (emit (EvPCall f 0 0 0) L))
             as [[rs | st err frames] L1 | L1]
       end.
  all: try reflexivity.
  all: try (unfold adjust_results; cbn [Z.ltb Z.compare Z.to_nat];
            rewrite resize_0, app_nil_r; reflexivity).
  all: destruct st; reflexivity.
Qed.

(** ** Stack depth around the protected calls *)

Lemma upto_pcall_stack b L result L1 :
  upto_pcall b L = Done (Some result) L1 ->
  exists below,
    length below = slots_below_callee b
    /\ ((result = LUA_OK
         /\ exists rs, length rs = declared_results b
                       /\ stack L1 = stack L ++ below ++ rs)
        \/ (result <> LUA_OK
            /\ exists err, stack L1 = stack L ++ below ++ [err])).
Proof.
  destruct b; cbn [upto_pcall slots_below_callee declared_results]; intros Hr.
  - exists []. split; [reflexivity |].
    destruct (decide (global_value L "fail" = VNil)) as [Hg | Hg].
    { rewrite (pcallFail_invoke_nil L Hg) in Hr. done. }
    rewrite (pcallFail_invoke_run L Hg) in Hr. cbv zeta in Hr.
    destruct (invoke cfunctions _ _ _) as [[rs | st err frames] L' | L'];
      [| | done].
    + inversion Hr; subst. left. split; [done |]. exists [].
      split; [done |]. cbn. by rewrite app_nil_r.
    + inversion Hr; subst. right. split; [apply status_code_not_ok |].
      by exists err.
  - exists [handler_slot]. split; [reflexivity |].
    destruct (pcallSwap_invoke_spec L) as (res & L2 & Hinv & Hcases).
    unfold bind in Hr. rewrite Hinv in Hr. inversion Hr; subst.
    destruct Hcases as [[-> (r1 & r2 & Hst)] | [Hne (err & Hst)]].
    + left. split; [done |]. exists [r1; r2]. split; [done |]. exact Hst.
    + right. split; [done |]. exists err. exact Hst.
Qed.

(** On [LUA_OK] the function does reset the stack to the saved [top]. *)
Lemma pcallSwap_ok_restores_stack L top L1 :
  pcallSwap_invoke L = Done (top, LUA_OK) L1 ->
  exists L', pcallSwap L = Done tt L' /\ stack L' = stack L.
Proof.
  intros Hinv. unfold pcallSwap, bind. rewrite Hinv. cbn [fst snd].
  destruct (pcallSwap_invoke_spec L) as (res & L2 & Hspec & Hcases).
  rewrite Hinv in Hspec. inversion Hspec; subst.
  destruct Hcases as [[_ (r1 & r2 & Hst)] | [Hne _]]; [| done].
  unfold pcallSwap_check. cbn [Z.eqb LUA_OK LUA_ERRRUN LUA_ERRMEM LUA_ERRERR LUA_ERRGCMM].
  unfold depth. rewrite (lua_settop_app L2 (stack L) [handler_slot; r1; r2] Hst).
  eexists. split; reflexivity.
Qed.

(** [pcallFail], which pushes no handler, is balanced on [LUA_ERRRUN]. *)
Lemma pcallFail_errrun_restores_stack L L1 :
  pcallFail_invoke L = Done (Some LUA_ERRRUN) L1 ->
  exists L', pcallFail L = Done tt L' /\ stack L' = stack L.
Proof.
  intros Hinv. unfold pcallFail, bind. rewrite Hinv.
  destruct (upto_pcall_stack PcallFail L LUA_ERRRUN L1 Hinv)
    as (below & Hlen & Hcases).
  destruct below; [| done].
  destruct Hcases as [[Hok _] | [_ (err & Hst)]]; [done |].
  unfold pcallFail_check. change (LUA_ERRRUN =? LUA_ERRRUN)%Z with true.
  cbv iota. unfold bind.
  destruct (lua_tostring_top L1 (stack L) err Hst) as [v' ->].
  unfold cerr. rewrite (lua_pop_app _ (stack L) [v']) by reflexivity.
  eexists. split; reflexivity.
Qed.

(** C4.  When [lua_pcall] in [pcallSwap] returns [LUA_ERRRUN], the function
    pops the error value and returns; the message handler it pushed stays on
    the stack, so the depth is one more than on entry.  (The stack is reset
    to the saved [top] on the [LUA_OK] path only.) *)
Theorem pcallSwap_errrun_keeps_handler_slot L top L1 :
  pcallSwap_invoke L = Done (top, LUA_ERRRUN) L1 ->
  exists L',
    pcallSwap L = Done tt L'
    /\ stack L' = stack L ++ [handler_slot]
    /\ depth L' = S (depth L).
Proof.
  intros Hinv. unfold pcallSwap, bind. rewrite Hinv. cbn [fst snd].
  destruct (pcallSwap_invoke_spec L) as (res & L2 & Hspec & Hcases).
  rewrite Hinv in Hspec. inversion Hspec; subst res L2.
  destruct Hcases as [[Hok _] | [_ (err & Hst)]]; [done |].
  rewrite (pcallSwap_check_errrun L1 (stack L ++ [handler_slot]) err)
    by (rewrite Hst, <- app_assoc; reflexivity).
  eexists. split; [reflexivity |]. unfold depth. cbn [stack set_stack].
  split; [done |]. rewrite length_app. simpl. lia.
Qed.

Lemma pcallSwap_errrun_keeps_handler_slot_witness :
  exists L',
    pcallSwap loaded = Done tt L'
    /\ stack L' = stack loaded ++ [handler_slot]
    /\ depth L' = S (depth loaded).
Proof.
  apply (pcallSwap_errrun_keeps_handler_slot loaded 1%Z
           (final (pcallSwap_invoke loaded))).
  vm_compute. reflexivity.
Defined.

(** C5, as stated, fails for [pcallSwap]: right after [lua_pcall] has
    returned [LUA_ERRRUN] the depth is the depth on entry plus two. *)
Lemma failing_pcall_depth_counterexample :
  exists L1,
    pcallSwap_invoke loaded = Done (Z.of_nat (depth loaded), LUA_ERRRUN) L1
    /\ LUA_ERRRUN <> LUA_OK
    /\ depth L1 = depth loaded + 2
    /\ depth L1 <> depth loaded + 1.
Proof.
  eexists. split; [vm_compute; reflexivity |].
  split; [done |]. split; [reflexivity | cbn; lia].
Qed.

(** C5, amended.  Right after [lua_pcall] has returned a status other than
    [LUA_OK], the depth is the depth before the callee was pushed plus one:
    counted from the entry of the function, the depth on entry, plus the
    slot of the message handler where one was pushed ([pcallSwap]), plus one
    for the error value. *)
Theorem failing_pcall_depth b L result L1 :
  upto_pcall b L = Done (Some result) L1 ->
  result <> LUA_OK ->
  depth L1 = depth L + slots_below_callee b + 1.
Proof.
  intros Hr Hne.
  destruct (upto_pcall_stack b L result L1 Hr) as (below & Hlen & Hcases).
  destruct Hcases as [[Hok _] | [_ (err & Hst)]]; [done |].
  unfold depth. rewrite Hst, !length_app, Hlen. simpl. lia.
Qed.

Lemma failing_pcall_depth_witness :
  depth (final (upto_pcall PcallSwap loaded)) = depth loaded + 1 + 1
  /\ depth (final (upto_pcall PcallFail loaded)) = depth loaded + 0 + 1.
Proof.
  split.
  - apply (failing_pcall_depth PcallSwap loaded LUA_ERRRUN);
      [vm_compute; reflexivity | done].
  - apply (failing_pcall_depth PcallFail loaded LUA_ERRRUN);
      [vm_compute; reflexivity | done].
Defined.

(** C6, as stated, fails for [pcallSwap]: right after [lua_pcall] has
    returned [LUA_OK] the depth is the depth on entry plus three. *)
Lemma successful_pcall_depth_counterexample :
  exists L1,
    pcallSwap_invoke loaded_plain
      = Done (Z.of_nat (depth loaded_plain), LUA_OK) L1
    /\ depth L1 = depth loaded_plain + 3
    /\ depth L1 <> depth loaded_plain + 2.
Proof.
  eexists. split; [vm_compute; reflexivity |].
  split; [reflexivity | cbn; lia].
Qed.

(** C6, amended.  Right after [lua_pcall] has returned [LUA_OK], the depth
    is the depth before the callee was pushed plus the declared result
    count: counted from the entry of the function, the depth on entry, plus
    the slot of the message handler where one was pushed ([pcallSwap]), plus
    the declared result count. *)
Theorem successful_pcall_depth b L L1 :
  upto_pcall b L = Done (Some LUA_OK) L1 ->
  depth L1 = depth L + slots_below_callee b + declared_results b.
Proof.
  intros Hr.
  destruct (upto_pcall_stack b L LUA_OK L1 Hr) as (below & Hlen & Hcases).
  destruct Hcases as [[_ (rs & Hrs & Hst)] | [Hne _]]; [| done].
  unfold depth. rewrite Hst, !length_app, Hlen, Hrs. lia.
Qed.

Lemma successful_pcall_depth_witness :
  depth (final (upto_pcall PcallSwap loaded_plain)) = depth loaded_plain + 1 + 2.
Proof.
  apply (successful_pcall_depth PcallSwap loaded_plain).
  vm_compute. reflexivity.
Defined.

(** ** The message handler, as the interpreter runs it *)

(** C7.  On a stack whose top is the raised error value, [messageHandler]
    returns [1] and leaves, in the place of the error value, the traceback
    made from the textual form of the error value ([lua_tostring]) and the
    call stack without its innermost activation record; the error value
    itself is gone.  Called by the interpreter, with the error value as its
    only argument and its own activation record innermost, its only result
    is the traceback of the call stack below its own record. *)
Theorem messageHandler_replaces_error_by_traceback L pre e :
  stack L = pre ++ [e] ->
  (exists L',
     messageHandler L = Done 1%Z L'
     /\ stack L' =
          pre ++ [VString (traceback_text (text_of e) (drop 1 (callstack L)))]
     /\ depth L' = depth L)
  /\ invoke cfunctions handler_slot [e] L
     = Done (Returns [VString (traceback_text (text_of e) (callstack L))]) L.
Proof.
  intros Hs. split.
  - rewrite (messageHandler_run L pre e Hs).
    eexists. split; [reflexivity |]. unfold depth. cbn [stack set_stack].
    split; [reflexivity |]. rewrite Hs, !length_app. reflexivity.
  - apply invoke_messageHandler.
Qed.

Lemma messageHandler_replaces_error_by_traceback_witness :
  (exists L',
     messageHandler (set_stack [VString "boom"] blank) = Done 1%Z L'
     /\ stack L' = [VString (traceback_text (Some "boom") [])]
     /\ depth L' = 1)
  /\ invoke cfunctions handler_slot [VString "boom"]
       (set_stack [VString "boom"] blank)
     = Done (Returns [VString (traceback_text (Some "boom") [])])
         (set_stack [VString "boom"] blank).
Proof.
  apply (messageHandler_replaces_error_by_traceback
           (set_stack [VString "boom"] blank) [] (VString "boom")).
  reflexivity.
Defined.

(** C9.  For an error value that is neither a string nor a number,
    [lua_tostring] gives [NULL]; the traceback is then made from the call
    stack alone and holds nothing of the error value, and the handler still
    returns [1] with the traceback in the place of the error value. *)
Theorem messageHandler_error_without_text L pre e :
  stack L = pre ++ [e] ->
  (forall s, e <> VString s) ->
  (forall n, e <> VNumber n) ->
  lua_tostring (-1) L = Done None L
  /\ messageHandler L =
       Done 1%Z
         (set_stack
            (pre ++ [VString (traceback_text None (drop 1 (callstack L)))]) L).
Proof.
  intros Hs Hstr Hnum.
  assert (Ht : text_of e = None).
  { destruct e; try reflexivity; [by destruct (Hnum n) | by destruct (Hstr s)]. }
  split.
  - unfold lua_tostring. rewrite (index2value_top L pre e Hs).
    destruct e; try reflexivity; [by destruct (Hnum n) | by destruct (Hstr s)].
  - rewrite (messageHandler_run L pre e Hs), Ht. reflexivity.
Qed.

Lemma messageHandler_error_without_text_witness :
  lua_tostring (-1) (set_stack [VTable 7] blank)
    = Done None (set_stack [VTable 7] blank)
  /\ messageHandler (set_stack [VTable 7] blank) =
       Done 1%Z
         (set_stack [VString (traceback_text None [])] (set_stack [VTable 7] blank)).
Proof.
  apply (messageHandler_error_without_text (set_stack [VTable 7] blank) []
           (VTable 7)); [reflexivity | discriminate | discriminate].
Defined.

(** ** callHello *)

(** C8.  With no global [hello], [callHello] reports it and returns without
    popping the [nil] it looked up: no call is made and the stack is one
    deeper than on entry. *)
Theorem callHello_missing_leaves_nil L :
  global_value L "hello" = VNil ->
  exists L',
    callHello L = Done tt L'
    /\ stack L' = stack L ++ [VNil]
    /\ depth L' = S (depth L)
    /\ globals L' = globals L
    /\ trace L' =
         trace L ++ [EvStderr [Lit ("Global function hello not found" +:+ newline)]].
Proof.
  intros Hg. unfold callHello, bind, lua_getglobal, push.
  rewrite (lua_isnil_top _ (stack L) (global_value L "hello")) by reflexivity.
  rewrite Hg. eexists. split; [reflexivity |].
  unfold depth. cbn. rewrite length_app. simpl. repeat split. lia.
Qed.

Lemma callHello_missing_leaves_nil_witness :
  exists L',
    callHello blank = Done tt L'
    /\ stack L' = stack blank ++ [VNil]
    /\ depth L' = S (depth blank)
    /\ globals L' = globals blank
    /\ trace L' =
         trace blank
         ++ [EvStderr [Lit ("Global function hello not found" +:+ newline)]].
Proof.
  apply (callHello_missing_leaves_nil blank). reflexivity.
Defined.

(** ** callSwap *)

Lemma lua_tostring_below_top L s a b :
  stack L = s ++ [a; b] ->
  exists a', lua_tostring (-2) L = Done (text_of a) (set_stack (s ++ [a'; b]) L).
Proof.
  intros Hs. unfold lua_tostring. rewrite (index2value_below_top L s a b Hs).
  destruct a;
    try (eexists; rewrite <- Hs, set_stack_same; reflexivity).
  eexists. simpl. rewrite absindex_neg by lia. rewrite Hs, length_app. simpl length.
  replace (Z.to_nat (Z.of_nat (length s + 2) + -2 + 1 - 1)) with (length s + 0)%nat by lia.
  rewrite insert_app_r. reflexivity.
Qed.

(** [callSwap] up to the return of [lua_call]: the stack of the call is
    the stack on entry with the callee and the two arguments on top. *)
Lemma callSwap_call L S :
  stack S = stack L ++ [global_value L "swap"; VString "red"; VString "green"] ->
  lua_call cfunctions 2 2 S =
    let f := global_value L "swap" in
    match invoke cfunctions f [VString "red"; VString "green"]
            (emit (EvCall f 2 2) (set_stack (stack L) S)) with
    | Done (Returns rs) L' =>
        Done tt (set_stack (stack L ++ adjust_results 2 rs) L')
    | Done (Throws _ err _) L' =>
        Abort (emit (EvPanic err) (set_stack (stack L ++ [err]) L'))
    | Abort L' => Abort L'
    end.
Proof.
  intros Hs.
  by rewrite (lua_call_frame cfunctions S (stack L) (global_value L "swap")
                [VString "red"; VString "green"] 2 2 Hs eq_refl).
Qed.

(** C10.  When [swap] is a script function and the call returns, [callSwap]
    reads the two result slots, prints them and pops them: the stack is as
    it was on entry. *)
Theorem callSwap_success_balanced L c rs g :
  global_value L "swap" = VFunction c ->
  funcs L c [VString "red"; VString "green"] (globals L) = (Returns rs, g) ->
  exists L' first second,
    callSwap L = Done tt L'
    /\ adjust_results 2 rs = [first; second]
    /\ stack L' = stack L
    /\ depth L' = depth L
    /\ trace L' =
         trace L
         ++ [EvCall (VFunction c) 2 2;
             EvStdout [Lit "swap() returned "; CStr (text_of first);
                       Lit " and "; CStr (text_of second); Lit newline]].
Proof.
  intros Hg Hf.
  destruct (adjust_results_two rs) as (r1 & r2 & Hadj).
  unfold callSwap, bind, lua_getglobal, lua_pushstring, push.
  cbn [stack set_stack].
  rewrite (callSwap_call L)
    by (cbn [stack set_stack]; rewrite <- !app_assoc; reflexivity).
  cbv zeta. rewrite Hg. cbn [invoke emit funcs globals set_stack].
  rewrite Hf, Hadj.
  match goal with
  | |- context [lua_tostring (-2) ?S] =>
      destruct (lua_tostring_below_top S (stack L) r1 r2 eq_refl) as [r1' ->]
  end.
  match goal with
  | |- context [lua_tostring (-1) ?S] =>
      destruct (lua_tostring_top S (stack L ++ [r1']) r2) as [r2' ->];
        [cbn [stack set_stack]; by rewrite <- app_assoc |]
  end.
  unfold cout.
  rewrite (lua_pop_app _ (stack L) [r1'; r2'])
    by (cbn [stack set_stack emit]; by rewrite <- app_assoc).
  exists (set_stack (stack L)
            (emit (EvStdout [Lit "swap() returned "; CStr (text_of r1);
                             Lit " and "; CStr (text_of r2); Lit newline])
               (set_globals g (emit (EvCall (VFunction c) 2 2) L)))), r1, r2.
  split; [reflexivity |]. split; [reflexivity |]. split; [reflexivity |].
  split; [reflexivity |]. cbn. by rewrite <- app_assoc.
Qed.

Lemma callSwap_success_balanced_witness :
  exists L' first second,
    callSwap loaded = Done tt L'
    /\ adjust_results 2 [VString "green"; VString "red"] = [first; second]
    /\ stack L' = stack loaded
    /\ depth L' = depth loaded
    /\ trace L' =
         trace loaded
         ++ [EvCall (VFunction 2) 2 2;
             EvStdout [Lit "swap() returned "; CStr (text_of first);
                       Lit " and "; CStr (text_of second); Lit newline]].
Proof.
  apply (callSwap_success_balanced loaded 2
           [VString "green"; VString "red"] (globals loaded));
    reflexivity.
Defined.

(** C3.  [callSwap] makes no check on what it looked up: with no global
    [swap] it calls [nil] outside any protected call, and the process ends
    in the interpreter's panic. *)
Theorem callSwap_missing_calls_nil L :
  global_value L "swap" = VNil ->
  exists L',
    callSwap L = Abort L'
    /\ trace L' =
         trace L
         ++ [EvCall VNil 2 2; EvPanic (VString "attempt to call a nil value")].
Proof.
  intros Hg.
  unfold callSwap, bind, lua_getglobal, lua_pushstring, push.
  cbn [stack set_stack].
  rewrite (callSwap_call L)
    by (cbn [stack set_stack]; rewrite <- !app_assoc; reflexivity).
  cbv zeta. rewrite Hg. cbn [invoke].
  eexists. split; [reflexivity |]. cbn. by rewrite <- app_assoc.
Qed.

Lemma callSwap_missing_calls_nil_witness :
  exists L',
    callSwap blank = Abort L'
    /\ trace L' =
         trace blank
         ++ [EvCall VNil 2 2; EvPanic (VString "attempt to call a nil value")].
Proof.
  apply (callSwap_missing_calls_nil blank). reflexivity.
Defined.

(** [pcallFail], its sibling, does check: with no global [fail] it reports
    it and makes no call. *)
Lemma pcallFail_missing_makes_no_call L :
  global_value L "fail" = VNil ->
  exists L',
    pcallFail L = Done tt L'
    /\ trace L' =
         trace L ++ [EvStderr [Lit ("Global function fail not found" +:+ newline)]].
Proof.
  intros Hg. unfold pcallFail, bind. rewrite (pcallFail_invoke_nil L Hg).
  eexists. split; reflexivity.
Qed.

(** C2.  [pcallSwap] makes no check on what it looked up: with no global
    [swap] it hands [nil] to [lua_pcall]; the interpreter raises "attempt to
    call a nil value", runs the message handler, and the function prints the
    traceback.  No lookup failure is reported. *)
Theorem pcallSwap_missing_calls_nil L :
  global_value L "swap" = VNil ->
  exists L',
    pcallSwap L = Done tt L'
    /\ trace L' =
         trace L
         ++ [EvPCall VNil 1 2 (Z.of_nat (depth L) + 1);
             EvHandler handler_slot (VString "attempt to call a nil value");
             EvStderr
               [CStr (Some (traceback_text (Some "attempt to call a nil value")
                              (callstack L)));
                Lit newline]].
Proof.
  intros Hg. unfold pcallSwap, bind.
  rewrite pcallSwap_invoke_run. cbv zeta. rewrite Hg. cbn [invoke fst snd].
  erewrite pcallSwap_check_errrun by reflexivity.
  eexists. split; [reflexivity |]. cbn.
  rewrite <- !app_assoc, length_app. simpl.
  replace (Z.of_nat (length (stack L) + 1)) with (Z.of_nat (depth L) + 1)%Z
    by (unfold depth; lia).
  reflexivity.
Qed.

Lemma pcallSwap_missing_calls_nil_witness :
  exists L',
    pcallSwap blank = Done tt L'
    /\ trace L' =
         trace blank
         ++ [EvPCall VNil 1 2 (Z.of_nat (depth blank) + 1);
             EvHandler handler_slot (VString "attempt to call a nil value");
             EvStderr
               [CStr (Some (traceback_text (Some "attempt to call a nil value")
                              (callstack blank)));
                Lit newline]].
Proof.
  apply (pcallSwap_missing_calls_nil blank). reflexivity.
Defined.

(** [main] can get there: with a script whose [fail] clears [swap], the
    seventh thing the process does is the protected call of [nil]. *)
Lemma main_reaches_pcallSwap_without_swap :
  exit_code (CallingLuaFunction.main clearing_env) = Some 0%Z
  /\ history (CallingLuaFunction.main clearing_env) !! 6
     = Some (EvPCall VNil 1 2 1).
Proof. vm_compute. done. Qed.

(** ** The state is created and released *)

(** When the source runs, [hello-world] releases the state once. *)
Lemma hello_world_success_closes_once env c rs g :
  can_allocate env = true ->
  load_string env "print('Hello world!')" = Compiled c ->
  closures env c [] (stdlib env ∪ ∅) = (Returns rs, g) ->
  exit_code (HelloWorld.main env) = Some 0%Z
  /\ closes (HelloWorld.main env) = 1.
Proof.
  intros Hc Hload Hrun.
  unfold HelloWorld.main, luaL_newstate. rewrite Hc.
  unfold run, bind, luaL_openlibs, luaL_dostring, luaL_loadstring, bind.
  rewrite Hload. cbn [load]. unfold bind, push, ret.
  change (LUA_OK =? 0)%Z with true. cbv beta iota.
  erewrite (lua_pcall_frame HelloWorld.cfunctions _ [] (VFunction c) [])
    by reflexivity.
  cbn [invoke emit set_stack set_globals funcs globals stack].
  rewrite Hrun. cbn. done.
Qed.

(** So does [calling-lua-function] on the sample script. *)
Lemma calling_lua_function_success_closes_once :
  exit_code (CallingLuaFunction.main working_env) = Some 0%Z
  /\ closes (CallingLuaFunction.main working_env) = 1.
Proof. vm_compute. done. Qed.

(** When the source is compiled but raises while it runs, it returns [-1]
    without releasing the state. *)
Lemma hello_world_run_failure_skips_close env c t err frames g :
  can_allocate env = true ->
  load_string env "print('Hello world!')" = Compiled c ->
  closures env c [] (stdlib env ∪ ∅) = (Throws t err frames, g) ->
  exit_code (HelloWorld.main env) = Some (-1)%Z
  /\ closes (HelloWorld.main env) = 0.
Proof.
  intros Hc Hload Hrun.
  unfold HelloWorld.main, luaL_newstate. rewrite Hc.
  unfold run, bind, luaL_openlibs, luaL_dostring, luaL_loadstring, bind.
  rewrite Hload. cbn [load]. unfold bind, push, ret.
  change (LUA_OK =? 0)%Z with true. cbv beta iota.
  erewrite (lua_pcall_frame HelloWorld.cfunctions _ [] (VFunction c) [])
    by reflexivity.
  cbn [invoke emit set_stack set_globals funcs globals stack].
  rewrite Hrun. change (0 =? 0)%Z with true. cbv iota.
  destruct t; cbn; done.
Qed.

(** With a script that defines no [swap], [calling-lua-function] ends in the
    panic of [callSwap]; the state is not released on that path either. *)
Lemma calling_lua_function_panic_skips_close :
  exit_code (CallingLuaFunction.main silent_env) = None
  /\ closes (CallingLuaFunction.main silent_env) = 0.
Proof. vm_compute. done. Qed.

(** C1.  When the source cannot be loaded, both programs return [-1] from
    [main] with a state that was created and never released: the early
    return skips [lua_close]. *)
Theorem main_load_failure_skips_close env st msg st' msg' :
  can_allocate env = true ->
  load_string env "print('Hello world!')" = LoadFailed st msg ->
  st <> LUA_OK ->
  load_file env "calling-lua-function.lua" = LoadFailed st' msg' ->
  st' <> LUA_OK ->
  (exit_code (HelloWorld.main env) = Some (-1)%Z
   /\ closes (HelloWorld.main env) = 0)
  /\ (exit_code (CallingLuaFunction.main env) = Some (-1)%Z
      /\ closes (CallingLuaFunction.main env) = 0).
Proof.
  intros Hc Hstr Hst Hfile Hst'.
  apply Z.eqb_neq in Hst, Hst'. unfold LUA_OK in Hst, Hst'.
  split.
  - unfold HelloWorld.main, luaL_newstate. rewrite Hc.
    unfold run, bind, luaL_openlibs, luaL_dostring, luaL_loadstring, bind.
    rewrite Hstr. cbn [load]. unfold bind, push, ret. rewrite Hst.
    cbn. done.
  - unfold CallingLuaFunction.main, luaL_newstate. rewrite Hc.
    unfold run, bind, luaL_openlibs, luaL_dofile, luaL_loadfile, bind.
    rewrite Hfile. cbn [load]. unfold bind, push, ret. rewrite Hst'.
    cbn. done.
Qed.

Lemma main_load_failure_skips_close_witness :
  (exit_code (HelloWorld.main broken_env) = Some (-1)%Z
   /\ closes (HelloWorld.main broken_env) = 0)
  /\ (exit_code (CallingLuaFunction.main broken_env) = Some (-1)%Z
      /\ closes (CallingLuaFunction.main broken_env) = 0).
Proof.
  apply (main_load_failure_skips_close broken_env
           LUA_ERRSYNTAX "syntax error near <eof>"
           LUA_ERRFILE "cannot open calling-lua-function.lua");
    [reflexivity | reflexivity | discriminate | reflexivity | discriminate].
Defined.

(** * Further properties of the host code *)

(** ** The state is released when, and only when, [main] returns [0] *)

Lemma releases_snoc t e :
  releases (t ++ [e]) = releases t + (if is_close e then 1 else 0).
Proof.
  unfold releases. rewrite filter_app, length_app. f_equal.
  destruct e; reflexivity.
Qed.

Lemma closes_releases p : closes p = releases (history p).
Proof. reflexivity. Qed.

Lemma keeps_open_ret {A} (a : A) : keeps_open (ret a).
Proof. intros L. reflexivity. Qed.

Lemma keeps_open_bind {A B} (m : M A) (k : A -> M B) :
  keeps_open m -> (forall a, keeps_open (k a)) -> keeps_open (bind m k).
Proof.
  intros Hm Hk L. unfold bind. specialize (Hm L).
  destruct (m L) as [a L' | L']; cbn [final] in *; [| exact Hm].
  rewrite (Hk a L'). exact Hm.
Qed.

(** A step that only changes the stack, the globals or the call stack. *)
Lemma keeps_open_same_trace {A} (m : M A) :
  (forall L, trace (final (m L)) = trace L) -> keeps_open m.
Proof. intros H L. by rewrite H. Qed.

Lemma keeps_open_emit {A} (a : A) (e : event) :
  is_close e = false -> keeps_open (fun L => Done a (emit e L)).
Proof.
  intros He L. cbn [final emit trace]. rewrite releases_snoc, He. lia.
Qed.

Lemma keeps_open_push v : keeps_open (push v).
Proof. by apply keeps_open_same_trace. Qed.

Lemma keeps_open_lua_gettop : keeps_open lua_gettop.
Proof. by apply keeps_open_same_trace. Qed.

Lemma keeps_open_lua_getglobal name : keeps_open (lua_getglobal name).
Proof. by apply keeps_open_same_trace. Qed.

Lemma keeps_open_lua_isnil idx : keeps_open (lua_isnil idx).
Proof. by apply keeps_open_same_trace. Qed.

Lemma keeps_open_lua_settop idx : keeps_open (lua_settop idx).
Proof.
  apply keeps_open_same_trace. intros L. unfold lua_settop.
  by destruct (_ <? 0)%Z.
Qed.

Lemma keeps_open_lua_remove idx : keeps_open (lua_remove idx).
Proof.
  apply keeps_open_same_trace. intros L. unfold lua_remove.
  by destruct (_ && _).
Qed.

Lemma keeps_open_lua_tostring idx : keeps_open (lua_tostring idx).
Proof.
  apply keeps_open_same_trace. intros L. unfold lua_tostring.
  destruct (index2value L idx) as [[] |]; reflexivity.
Qed.

Lemma keeps_open_luaL_traceback msg level : keeps_open (luaL_traceback msg level).
Proof. by apply keeps_open_same_trace. Qed.

Lemma keeps_open_luaL_checkstring idx : keeps_open (luaL_checkstring idx).
Proof.
  apply keeps_open_bind; [apply keeps_open_lua_tostring |].
  intros [s |]; [apply keeps_open_ret |].
  intros L. cbn [final emit trace]. rewrite releases_snoc. cbn. lia.
Qed.

Lemma keeps_open_cerr text : keeps_open (cerr text).
Proof. by apply keeps_open_emit. Qed.

Lemma keeps_open_cout text : keeps_open (cout text).
Proof. by apply keeps_open_emit. Qed.

Lemma keeps_open_load r : keeps_open (load r).
Proof.
  destruct r; (apply keeps_open_bind; [apply keeps_open_push |]);
    intros _; apply keeps_open_ret.
Qed.

Lemma keeps_open_luaL_openlibs env : keeps_open (luaL_openlibs env).
Proof. by apply keeps_open_same_trace. Qed.

Section CallsKeepOpen.

Variable cfn : cfunction -> M Z.
Hypothesis cfn_keeps_open : forall c, keeps_open (cfn c).

Lemma keeps_open_invoke f args : keeps_open (invoke cfn f args).
Proof.
  intros L. unfold invoke. destruct f; try reflexivity.
  - by destruct (funcs L closure args (globals L)) as [o g].
  - pose proof (cfn_keeps_open c
                  (set_callstack (cframe c :: callstack L) (set_stack args L)))
      as Hc.
    destruct (cfn c _) as [n L' | L']; exact Hc.
Qed.

Lemma keeps_open_run_handler h err frames :
  keeps_open (run_handler cfn h err frames).
Proof.
  intros L. unfold run_handler.
  pose proof (keeps_open_invoke h [err]
                (emit (EvHandler h err) (set_callstack (frames ++ callstack L) L)))
    as Hi.
  cbn [emit set_callstack trace] in Hi. rewrite releases_snoc in Hi.
  cbn [is_close] in Hi. rewrite Nat.add_0_r in Hi.
  destruct (invoke cfn h [err] _) as [[rs | st e fr] L' | L']; exact Hi.
Qed.

Lemma keeps_open_lua_call nargs nresults : keeps_open (lua_call cfn nargs nresults).
Proof.
  intros L. unfold lua_call. destruct (well_placed L nargs); [| reflexivity].
  match goal with
  | |- context [invoke cfn ?f ?a ?S] =>
      pose proof (keeps_open_invoke f a S) as Hi;
        destruct (invoke cfn f a S) as [[rs | st e fr] L' | L']
  end.
  all: cbn [final emit set_stack trace] in *.
  all: rewrite ?releases_snoc in *; cbn [is_close] in *; lia.
Qed.

Lemma keeps_open_lua_pcall nargs nresults msgh :
  keeps_open (lua_pcall cfn nargs nresults msgh).
Proof.
  intros L. unfold lua_pcall. destruct (well_placed L nargs); [| reflexivity].
  match goal with
  | |- context [invoke cfn ?f ?a ?S] =>
      pose proof (keeps_open_invoke f a S) as Hi;
        destruct (invoke cfn f a S) as [[rs | st e fr] L' | L']
  end.
  all: cbn [final emit set_stack trace] in Hi.
  all: rewrite releases_snoc in Hi; cbn [is_close] in Hi;
    rewrite Nat.add_0_r in Hi.
  - exact Hi.
  - destruct st; try exact Hi.
    destruct (if (msgh =? 0)%Z then None else index2value L msgh) as [hv |];
      [| exact Hi].
    pose proof (keeps_open_run_handler hv e fr L') as Hh.
    destruct (run_handler cfn hv e fr L') as [[st' e'] L'' | L''];
      cbn [final set_stack trace] in *; congruence.
  - exact Hi.
Qed.

Lemma keeps_open_luaL_dofile env filename : keeps_open (luaL_dofile cfn env filename).
Proof.
  apply keeps_open_bind; [apply keeps_open_load |].
  intros st. destruct (st =? 0)%Z; [| apply keeps_open_ret].
  apply keeps_open_bind; [apply keeps_open_lua_pcall |].
  intros st'. apply keeps_open_ret.
Qed.

Lemma keeps_open_luaL_dostring env src : keeps_open (luaL_dostring cfn env src).
Proof.
  apply keeps_open_bind; [apply keeps_open_load |].
  intros st. destruct (st =? 0)%Z; [| apply keeps_open_ret].
  apply keeps_open_bind; [apply keeps_open_lua_pcall |].
  intros st'. apply keeps_open_ret.
Qed.

End CallsKeepOpen.

Lemma keeps_open_messageHandler : keeps_open messageHandler.
Proof.
  apply keeps_open_bind; [apply keeps_open_lua_tostring |]. intros msg.
  apply keeps_open_bind; [apply keeps_open_luaL_traceback |]. intros _.
  apply keeps_open_bind; [apply keeps_open_lua_remove |]. intros _.
  apply keeps_open_ret.
Qed.

Lemma keeps_open_cfunctions c : keeps_open (cfunctions c).
Proof. destruct c. apply keeps_open_messageHandler. Qed.

Lemma keeps_open_hello_cfunctions c : keeps_open (HelloWorld.cfunctions c).
Proof. apply keeps_open_ret. Qed.

Lemma keeps_open_callHello : keeps_open callHello.
Proof.
  apply keeps_open_bind; [apply keeps_open_lua_getglobal |]. intros _.
  apply keeps_open_bind; [apply keeps_open_lua_isnil |]. intros [].
  - apply keeps_open_cerr.
  - apply keeps_open_lua_call, keeps_open_cfunctions.
Qed.

Lemma keeps_open_callSwap : keeps_open callSwap.
Proof.
  apply keeps_open_bind; [apply keeps_open_lua_getglobal |]. intros _.
  apply keeps_open_bind; [apply keeps_open_push |]. intros _.
  apply keeps_open_bind; [apply keeps_open_push |]. intros _.
  apply keeps_open_bind;
    [apply keeps_open_lua_call, keeps_open_cfunctions |]. intros _.
  apply keeps_open_bind; [apply keeps_open_lua_tostring |]. intros first.
  apply keeps_open_bind; [apply keeps_open_lua_tostring |]. intros second.
  apply keeps_open_bind; [apply keeps_open_cout |]. intros _.
  apply keeps_open_lua_settop.
Qed.

Lemma keeps_open_pcallFail : keeps_open pcallFail.
Proof.
  apply keeps_open_bind.
  - apply keeps_open_bind; [apply keeps_open_lua_getglobal |]. intros _.
    apply keeps_open_bind; [apply keeps_open_lua_isnil |]. intros [].
    + apply keeps_open_bind; [apply keeps_open_cerr |]. intros _.
      apply keeps_open_ret.
    + apply keeps_open_bind;
        [apply keeps_open_lua_pcall, keeps_open_cfunctions |].
      intros r. apply keeps_open_ret.
  - intros [result |]; [| apply keeps_open_ret].
    unfold pcallFail_check.
    destruct (result =? LUA_ERRRUN)%Z.
    { apply keeps_open_bind; [apply keeps_open_lua_tostring |]. intros err.
      apply keeps_open_bind; [apply keeps_open_cerr |]. intros _.
      apply keeps_open_lua_settop. }
    destruct (result =? LUA_ERRMEM)%Z; [apply keeps_open_cerr |].
    destruct (result =? LUA_ERRERR)%Z; [apply keeps_open_cerr |].
    destruct (result =? LUA_ERRGCMM)%Z; [apply keeps_open_cerr |].
    apply keeps_open_ret.
Qed.

Lemma keeps_open_pcallSwap : keeps_open pcallSwap.
Proof.
  apply keeps_open_bind.
  - apply keeps_open_bind; [apply keeps_open_lua_gettop |]. intros top.
    apply keeps_open_bind; [apply keeps_open_push |]. intros _.
    apply keeps_open_bind; [apply keeps_open_lua_gettop |]. intros h.
    apply keeps_open_bind; [apply keeps_open_lua_getglobal |]. intros _.
    apply keeps_open_bind; [apply keeps_open_push |]. intros _.
    apply keeps_open_bind;
      [apply keeps_open_lua_pcall, keeps_open_cfunctions |].
    intros r. apply keeps_open_ret.
  - intros [top result]. cbn [fst snd]. unfold pcallSwap_check.
    destruct (result =? LUA_ERRRUN)%Z.
    { apply keeps_open_bind; [apply keeps_open_lua_tostring |]. intros err.
      apply keeps_open_bind; [apply keeps_open_cerr |]. intros _.
      apply keeps_open_lua_settop. }
    destruct (result =? LUA_ERRMEM)%Z; [apply keeps_open_cerr |].
    destruct (result =? LUA_ERRERR)%Z; [apply keeps_open_cerr |].
    destruct (result =? LUA_ERRGCMM)%Z; [apply keeps_open_cerr |].
    apply keeps_open_lua_settop.
Qed.

(** How the exit code and the releases compose along [main]. *)
Lemma released_iff_zero_bind {A} (m : M A) (k : A -> M Z) :
  keeps_open m ->
  (forall a L, released_iff_zero (k a L) (releases (trace L))) ->
  forall L, released_iff_zero (bind m k L) (releases (trace L)).
Proof.
  intros Hm Hk L. unfold bind. specialize (Hm L).
  destruct (m L) as [a L' | L']; cbn [final] in Hm.
  - rewrite <- Hm. apply Hk.
  - exact Hm.
Qed.

Lemma released_iff_zero_close_and_return L :
  released_iff_zero ((lua_close ;;; ret 0%Z) L) (releases (trace L)).
Proof.
  unfold bind, lua_close, ret. cbn [released_iff_zero emit trace].
  left. split; [reflexivity |]. rewrite releases_snoc. cbn [is_close]. lia.
Qed.

Lemma released_iff_zero_return_failure L :
  released_iff_zero (ret (-1)%Z L) (releases (trace L)).
Proof. unfold ret. cbn [released_iff_zero]. right. split; [lia | reflexivity]. Qed.

Lemma released_iff_zero_run m L :
  trace L = [] ->
  released_iff_zero (m L) (releases (trace L)) ->
  (exit_code (run m L) = Some 0%Z /\ closes (run m L) = 1)
  \/ (exit_code (run m L) <> Some 0%Z /\ closes (run m L) = 0).
Proof.
  intros Ht. rewrite Ht. unfold run, released_iff_zero.
  destruct (m L) as [code L' | L']; cbn [exit_code];
    rewrite closes_releases; cbn [history].
  - intros [[-> Hr] | [Hne Hr]]; [left | right]; split; try done.
    intros [= Hc]. done.
  - intros Hr. right. split; [done | exact Hr].
Qed.

(** X1.  In any run of [hello-world], whatever the environment and the script,
    the state is released exactly once when [main] returns [0] and not at
    all when it returns anything else. *)
Theorem hello_world_releases_iff_success env :
  (exit_code (HelloWorld.main env) = Some 0%Z
   /\ closes (HelloWorld.main env) = 1)
  \/ (exit_code (HelloWorld.main env) <> Some 0%Z
      /\ closes (HelloWorld.main env) = 0).
Proof.
  unfold HelloWorld.main, luaL_newstate.
  destruct (can_allocate env); [| right; split; done].
  apply released_iff_zero_run; [reflexivity |].
  apply released_iff_zero_bind; [apply keeps_open_luaL_openlibs |].
  intros _. apply released_iff_zero_bind;
    [apply keeps_open_luaL_dostring, keeps_open_hello_cfunctions |].
  intros r L. destruct (negb (r =? 0)%Z).
  - apply released_iff_zero_bind; [apply keeps_open_cerr |].
    intros _. apply released_iff_zero_return_failure.
  - apply released_iff_zero_close_and_return.
Qed.

(** X2.  In any run of [calling-lua-function], whatever the environment and the
    script, the state is released exactly once when [main] returns [0] and
    not at all when it returns [-1] or the process aborts. *)
Theorem calling_lua_function_releases_iff_success env :
  (exit_code (CallingLuaFunction.main env) = Some 0%Z
   /\ closes (CallingLuaFunction.main env) = 1)
  \/ (exit_code (CallingLuaFunction.main env) <> Some 0%Z
      /\ closes (CallingLuaFunction.main env) = 0).
Proof.
  unfold CallingLuaFunction.main, luaL_newstate.
  destruct (can_allocate env); [| right; split; done].
  apply released_iff_zero_run; [reflexivity |].
  apply released_iff_zero_bind; [apply keeps_open_luaL_openlibs |].
  intros _. apply released_iff_zero_bind;
    [apply keeps_open_luaL_dofile, keeps_open_cfunctions |].
  intros r L. destruct (negb (r =? 0)%Z).
  - apply released_iff_zero_bind; [apply keeps_open_luaL_checkstring |].
    intros error. apply released_iff_zero_bind; [apply keeps_open_cout |].
    intros _. apply released_iff_zero_return_failure.
  - apply released_iff_zero_bind; [apply keeps_open_callHello |]. intros _.
    apply released_iff_zero_bind; [apply keeps_open_callSwap |]. intros _.
    apply released_iff_zero_bind; [apply keeps_open_pcallFail |]. intros _.
    apply released_iff_zero_bind; [apply keeps_open_pcallSwap |]. intros _.
    apply released_iff_zero_close_and_return.
Qed.

(** ** callHello and callSwap when the callee is there *)

(** [callHello] past its check: the unprotected call of what it looked up. *)
Lemma callHello_call L :
  global_value L "hello" <> VNil ->
  callHello L =
    let f := global_value L "hello" in
    match invoke cfunctions f [] (emit (EvCall f 0 0) L) with
    | Done (Returns rs) L' => Done tt (set_stack (stack L) L')
    | Done (Throws _ err _) L' =>
        Abort (emit (EvPanic err) (set_stack (stack L ++ [err]) L'))
    | Abort L' => Abort L'
    end.
Proof.
  intros Hg. unfold callHello, bind, lua_getglobal, push.
  rewrite (lua_isnil_top _ (stack L) (global_value L "hello")) by reflexivity.
  destruct (global_value L "hello") as [] eqn:Ef; try done.
  all: erewrite (lua_call_frame cfunctions _ (stack L) _ []) by reflexivity.
  all: cbv zeta.
  all: match goal with
       | |- context [invoke ?c ?f ?a ?S] =>
           change (invoke c f a S) with (invoke c f a (emit (EvCall f 0 0) L));
           destruct (invoke c f a (emit (EvCall f 0 0) L))
             as [[rs | st err frames] L1 | L1]
       end.
  all: try reflexivity.
  all: unfold adjust_results; cbn [Z.ltb Z.compare Z.to_nat];
    rewrite resize_0, app_nil_r; reflexivity.
Qed.

(** X6.  When [hello] is a script function that returns, [callHello] leaves the
    stack as it found it: the call takes the callee off the stack and, with
    no result declared, whatever the function returned is dropped. *)
Theorem callHello_success_balanced L c rs g :
  global_value L "hello" = VFunction c ->
  funcs L c [] (globals L) = (Returns rs, g) ->
  exists L',
    callHello L = Done tt L'
    /\ stack L' = stack L
    /\ globals L' = g
    /\ trace L' = trace L ++ [EvCall (VFunction c) 0 0].
Proof.
  intros Hg Hf. rewrite callHello_call by (rewrite Hg; done).
  cbv zeta. rewrite Hg. cbn [invoke emit funcs globals]. rewrite Hf.
  eexists. repeat split; reflexivity.
Qed.

Lemma callHello_success_balanced_witness :
  exists L',
    callHello loaded = Done tt L'
    /\ stack L' = stack loaded
    /\ globals L' = globals loaded
    /\ trace L' = trace loaded ++ [EvCall (VFunction 1) 0 0].
Proof.
  apply (callHello_success_balanced loaded 1 [] (globals loaded));
    reflexivity.
Defined.



(** X8.  When [hello] is a script function that raises, nothing catches the
    error: the process ends in the interpreter's panic with the raised
    value. *)
Theorem callHello_raise_panics L c st err frames g :
  global_value L "hello" = VFunction c ->
  funcs L c [] (globals L) = (Throws st err frames, g) ->
  exists L',
    callHello L = Abort L'
    /\ trace L' = trace L ++ [EvCall (VFunction c) 0 0; EvPanic err].
Proof.
  intros Hg Hf. rewrite callHello_call by (rewrite Hg; done).
  cbv zeta. rewrite Hg. cbn [invoke emit funcs globals]. rewrite Hf.
  eexists. split; [reflexivity |]. cbn. by rewrite <- app_assoc.
Qed.

Lemma callHello_raise_panics_witness :
  exists L',
    callHello hello_raises = Abort L'
    /\ trace L' =
         trace hello_raises
         ++ [EvCall (VFunction 3) 0 0;
             EvPanic (VString "calling-lua-function.lua:11: failed")].
Proof.
  apply (callHello_raise_panics hello_raises 3 ThrowRun
           (VString "calling-lua-function.lua:11: failed")
           ["[C]: in function 'error'";
            "calling-lua-function.lua:11: in function 'fail'"]
           (globals hello_raises));
    reflexivity.
Defined.

(** X10.  When [swap] is a script function that raises, [callSwap] does not get to
    read or print anything: the process ends in the interpreter's panic with
    the raised value. *)
Theorem callSwap_raise_panics L c st err frames g :
  global_value L "swap" = VFunction c ->
  funcs L c [VString "red"; VString "green"] (globals L)
    = (Throws st err frames, g) ->
  exists L',
    callSwap L = Abort L'
    /\ trace L' = trace L ++ [EvCall (VFunction c) 2 2; EvPanic err].
Proof.
  intros Hg Hf.
  unfold callSwap, bind, lua_getglobal, lua_pushstring, push.
  cbn [stack set_stack].
  rewrite (callSwap_call L)
    by (cbn [stack set_stack]; rewrite <- !app_assoc; reflexivity).
  cbv zeta. rewrite Hg. cbn [invoke emit funcs globals set_stack].
  rewrite Hf. eexists. split; [reflexivity |]. cbn. by rewrite <- app_assoc.
Qed.

Lemma callSwap_raise_panics_witness :
  exists L',
    callSwap swap_raises = Abort L'
    /\ trace L' =
         trace swap_raises
         ++ [EvCall (VFunction 3) 2 2;
             EvPanic (VString "calling-lua-function.lua:11: failed")].
Proof.
  apply (callSwap_raise_panics swap_raises 3 ThrowRun
           (VString "calling-lua-function.lua:11: failed")
           ["[C]: in function 'error'";
            "calling-lua-function.lua:11: in function 'fail'"]
           (globals swap_raises));
    reflexivity.
Defined.

(** ** pcallFail, outcome by outcome *)

(** X11.  With no global [fail], [pcallFail] returns before any call and, like
    [callHello], leaves the [nil] it looked up on the stack. *)
Theorem pcallFail_missing_leaves_nil L :
  global_value L "fail" = VNil ->
  exists L',
    pcallFail L = Done tt L'
    /\ stack L' = stack L ++ [VNil]
    /\ globals L' = globals L
    /\ trace L' =
         trace L ++ [EvStderr [Lit ("Global function fail not found" +:+ newline)]].
Proof.
  intros Hg. unfold pcallFail, bind. rewrite (pcallFail_invoke_nil L Hg).
  eexists. repeat split; reflexivity.
Qed.

Lemma pcallFail_missing_leaves_nil_witness :
  exists L',
    pcallFail blank = Done tt L'
    /\ stack L' = stack blank ++ [VNil]
    /\ globals L' = globals blank
    /\ trace L' =
         trace blank
         ++ [EvStderr [Lit ("Global function fail not found" +:+ newline)]].
Proof.
  apply (pcallFail_missing_leaves_nil blank). reflexivity.
Defined.

(** X12.  When [fail] is a script function that raises a runtime error,
    [pcallFail] prints "Error: " and the text of the raised value itself (no
    message handler runs, so there is no traceback), pops the value, and
    leaves the stack as it found it. *)
Theorem pcallFail_runtime_error_balanced L c err frames g :
  global_value L "fail" = VFunction c ->
  funcs L c [] (globals L) = (Throws ThrowRun err frames, g) ->
  exists L',
    pcallFail L = Done tt L'
    /\ stack L' = stack L
    /\ globals L' = g
    /\ trace L' =
         trace L
         ++ [EvPCall (VFunction c) 0 0 0;
             EvStderr [Lit "Error: "; CStr (text_of err); Lit newline]].
Proof.
  intros Hg Hf. unfold pcallFail, bind.
  rewrite pcallFail_invoke_run by (rewrite Hg; done).
  cbv zeta. rewrite Hg. cbn [invoke emit funcs globals]. rewrite Hf.
  cbn [status_code]. unfold pcallFail_check.
  change (LUA_ERRRUN =? LUA_ERRRUN)%Z with true. cbv iota. unfold bind.
  match goal with
  | |- context [lua_tostring (-1) ?S] =>
      destruct (lua_tostring_top S (stack L) err eq_refl) as [v' ->]
  end.
  unfold cerr. rewrite (lua_pop_app _ (stack L) [v']) by reflexivity.
  eexists. split; [reflexivity |]. repeat split. cbn. by rewrite <- app_assoc.
Qed.

Lemma pcallFail_runtime_error_balanced_witness :
  exists L',
    pcallFail loaded = Done tt L'
    /\ stack L' = stack loaded
    /\ globals L' = globals loaded
    /\ trace L' =
         trace loaded
         ++ [EvPCall (VFunction 3) 0 0 0;
             EvStderr [Lit "Error: ";
                       CStr (text_of (VString "calling-lua-function.lua:11: failed"));
                       Lit newline]].
Proof.
  apply (pcallFail_runtime_error_balanced loaded 3
           (VString "calling-lua-function.lua:11: failed")
           ["[C]: in function 'error'";
            "calling-lua-function.lua:11: in function 'fail'"]
           (globals loaded));
    reflexivity.
Defined.

(** X13.  For a failure that is not a runtime error (out of memory, error in a
    finalizer, error in error handling) [pcallFail] prints the name of the
    status and returns without popping: the error value stays on the
    stack. *)
Theorem pcallFail_other_failure_keeps_error L c st err frames g :
  global_value L "fail" = VFunction c ->
  funcs L c [] (globals L) = (Throws st err frames, g) ->
  st <> ThrowRun ->
  exists L',
    pcallFail L = Done tt L'
    /\ stack L' = stack L ++ [err]
    /\ trace L' =
         trace L
         ++ [EvPCall (VFunction c) 0 0 0; EvStderr [Lit (status_line st)]].
Proof.
  intros Hg Hf Hst. unfold pcallFail, bind.
  rewrite pcallFail_invoke_run by (rewrite Hg; done).
  cbv zeta. rewrite Hg. cbn [invoke emit funcs globals]. rewrite Hf.
  destruct st; [done | | |].
  all: eexists; split; [reflexivity |]; split; [reflexivity |];
    cbn; by rewrite <- app_assoc.
Qed.

Lemma pcallFail_other_failure_keeps_error_witness :
  exists L',
    pcallFail exhausted = Done tt L'
    /\ stack L' = stack exhausted ++ [VString "not enough memory"]
    /\ trace L' =
         trace exhausted
         ++ [EvPCall (VFunction 3) 0 0 0; EvStderr [Lit (status_line ThrowMem)]].
Proof.
  apply (pcallFail_other_failure_keeps_error exhausted 3 ThrowMem
           (VString "not enough memory") [] (globals exhausted));
    [reflexivity | reflexivity | discriminate].
Defined.

(** X14.  When [fail] is a script function that returns, [pcallFail] prints
    nothing and leaves the stack as it found it: with no result declared,
    whatever the function returned is dropped. *)
Theorem pcallFail_success_balanced L c rs g :
  global_value L "fail" = VFunction c ->
  funcs L c [] (globals L) = (Returns rs, g) ->
  exists L',
    pcallFail L = Done tt L'
    /\ stack L' = stack L
    /\ globals L' = g
    /\ trace L' = trace L ++ [EvPCall (VFunction c) 0 0 0].
Proof.
  intros Hg Hf. unfold pcallFail, bind.
  rewrite pcallFail_invoke_run by (rewrite Hg; done).
  cbv zeta. rewrite Hg. cbn [invoke emit funcs globals]. rewrite Hf.
  eexists. split; [reflexivity |]. repeat split.
Qed.

Lemma pcallFail_success_balanced_witness :
  exists L',
    pcallFail fail_returns = Done tt L'
    /\ stack L' = stack fail_returns
    /\ globals L' = globals fail_returns
    /\ trace L' = trace fail_returns ++ [EvPCall (VFunction 1) 0 0 0].
Proof.
  apply (pcallFail_success_balanced fail_returns 1 [] (globals fail_returns));
    reflexivity.
Defined.

(** ** pcallSwap, outcome by outcome *)


(** X16.  When [swap] is a script function that returns on the one argument,
    [pcallSwap] prints nothing and resets the stack to the depth it saved:
    the message handler and the two result slots are dropped and the stack
    is as it found it. *)
Theorem pcallSwap_success_balanced L c rs g :
  global_value L "swap" = VFunction c ->
  funcs L c [VString "red"] (globals L) = (Returns rs, g) ->
  exists L',
    pcallSwap L = Done tt L'
    /\ stack L' = stack L
    /\ globals L' = g
    /\ trace L' =
         trace L ++ [EvPCall (VFunction c) 1 2 (Z.of_nat (depth L) + 1)].
Proof.
  intros Hg Hf. unfold pcallSwap, bind.
  rewrite pcallSwap_invoke_run. cbv zeta. rewrite Hg.
  cbn [invoke emit funcs globals set_stack]. rewrite Hf. cbn [fst snd].
  destruct (adjust_results_two rs) as (r1 & r2 & ->).
  unfold pcallSwap_check.
  cbn [Z.eqb LUA_OK LUA_ERRRUN LUA_ERRMEM LUA_ERRERR LUA_ERRGCMM].
  unfold depth.
  rewrite (lua_settop_app _ (stack L) [handler_slot; r1; r2])
    by (cbn [stack set_stack set_globals]; by rewrite <- app_assoc).
  eexists. split; [reflexivity |]. repeat split.
  cbn. rewrite length_app. simpl.
  by replace (Z.of_nat (length (stack L) + 1))
    with (Z.of_nat (length (stack L)) + 1)%Z by lia.
Qed.

Lemma pcallSwap_success_balanced_witness :
  exists L',
    pcallSwap loaded_plain = Done tt L'
    /\ stack L' = stack loaded_plain
    /\ globals L' = globals loaded_plain
    /\ trace L' =
         trace loaded_plain
         ++ [EvPCall (VFunction 2) 1 2 (Z.of_nat (depth loaded_plain) + 1)].
Proof.
  apply (pcallSwap_success_balanced loaded_plain 2
           [VNil; VString "red"] (globals loaded_plain));
    reflexivity.
Defined.



(** ** What the user sees when [swap] raises *)

Lemma prefix_append_append m a b :
  String.prefix m ((m +:+ a) +:+ b) = true.
Proof.
  induction m as [| ch m IH].
  - by destruct (("" +:+ a) +:+ b).
  - change (String.prefix (String ch m) (String ch ((m +:+ a) +:+ b)) = true).
    cbn [String.prefix].
    destruct (Ascii.ascii_dec ch ch); [exact IH | done].
Qed.

(** X18.  When [swap] raises a runtime error whose value is a string or a number,
    the message handler runs once and [pcallSwap] prints one text: the text
    of the raised value, then the traceback of the activation records that
    were live when it was raised.  The raised text is the beginning of what
    is printed. *)
Theorem pcallSwap_prints_message_and_traceback L c err frames g m :
  global_value L "swap" = VFunction c ->
  funcs L c [VString "red"] (globals L) = (Throws ThrowRun err frames, g) ->
  text_of err = Some m ->
  exists L' text,
    pcallSwap L = Done tt L'
    /\ trace L' =
         trace L
         ++ [EvPCall (VFunction c) 1 2 (Z.of_nat (depth L) + 1);
             EvHandler handler_slot err;
             EvStderr [CStr (Some text); Lit newline]]
    /\ text = traceback_text (Some m) (frames ++ callstack L)
    /\ String.prefix m text = true.
Proof.
  intros Hg Hf Hm. unfold pcallSwap, bind.
  rewrite pcallSwap_invoke_run. cbv zeta. rewrite Hg.
  cbn [invoke emit funcs globals set_stack]. rewrite Hf. cbn [fst snd].
  erewrite pcallSwap_check_errrun by reflexivity.
  rewrite Hm. eexists _, _. split; [reflexivity |].
  split; [| split; [reflexivity | apply prefix_append_append]].
  cbn. rewrite <- !app_assoc, length_app. simpl.
  by replace (Z.of_nat (length (stack L) + 1))
    with (Z.of_nat (depth L) + 1)%Z by (unfold depth; lia).
Qed.

Lemma pcallSwap_prints_message_and_traceback_witness :
  exists L' text,
    pcallSwap loaded = Done tt L'
    /\ trace L' =
         trace loaded
         ++ [EvPCall (VFunction 2) 1 2 (Z.of_nat (depth loaded) + 1);
             EvHandler handler_slot
               (VString "calling-lua-function.lua:6: attempt to concatenate a nil value (local 'b')");
             EvStderr [CStr (Some text); Lit newline]]
    /\ text =
         traceback_text
           (Some "calling-lua-function.lua:6: attempt to concatenate a nil value (local 'b')")
           (["calling-lua-function.lua:6: in function 'swap'"] ++ callstack loaded)
    /\ String.prefix
         "calling-lua-function.lua:6: attempt to concatenate a nil value (local 'b')"
         text = true.
Proof.
  apply (pcallSwap_prints_message_and_traceback loaded 2
           (VString "calling-lua-function.lua:6: attempt to concatenate a nil value (local 'b')")
           ["calling-lua-function.lua:6: in function 'swap'"]
           (globals loaded));
    reflexivity.
Defined.

(** ** Leaks add up *)








(** ** How main ends when the script cannot be run *)

(** [luaL_dofile] on a chunk that compiles and raises while it runs: the
    raised value is left on the stack and the result is [1]. *)
Lemma luaL_dofile_raises env filename c t err frames g L :
  stack L = [] ->
  load_file env filename = Compiled c ->
  funcs L c [] (globals L) = (Throws t err frames, g) ->
  luaL_dofile cfunctions env filename L =
    Done 1%Z
      (set_stack [err]
         (set_globals g (emit (EvPCall (VFunction c) 0 LUA_MULTRET 0) L))).
Proof.
  intros Hs Hload Hf.
  unfold luaL_dofile, luaL_loadfile, bind. rewrite Hload. cbn [load].
  unfold bind, push, ret. change (LUA_OK =? 0)%Z with true. cbv beta iota.
  erewrite (lua_pcall_frame cfunctions _ [] (VFunction c) [])
    by (cbn [stack set_stack]; rewrite ?Hs; reflexivity).
  cbn [invoke emit set_stack set_globals funcs globals stack].
  rewrite Hf. change (0 =? 0)%Z with true. cbv iota.
  destruct t; reflexivity.
Qed.

(** X4.  When the script raises a string or a number while it is loaded,
    [calling-lua-function] prints "Error: " and its text on standard output
    and returns [-1]; none of the four calls is made. *)
Theorem main_script_error_with_text env c t err frames g m :
  can_allocate env = true ->
  load_file env "calling-lua-function.lua" = Compiled c ->
  closures env c [] (stdlib env ∪ ∅) = (Throws t err frames, g) ->
  text_of err = Some m ->
  exit_code (CallingLuaFunction.main env) = Some (-1)%Z
  /\ history (CallingLuaFunction.main env) =
       [EvPCall (VFunction c) 0 LUA_MULTRET 0;
        EvStdout [Lit "Error: "; Lit m; Lit newline]].
Proof.
  intros Hc Hload Hf Hm.
  assert (Hmain : CallingLuaFunction.main env =
                  mkProcess (Some (-1)%Z)
                    [EvPCall (VFunction c) 0 LUA_MULTRET 0;
                     EvStdout [Lit "Error: "; Lit m; Lit newline]]).
  { unfold CallingLuaFunction.main, luaL_newstate. rewrite Hc.
    unfold run, bind at 1 2. unfold luaL_openlibs.
    rewrite (luaL_dofile_raises env _ c t err frames g) by done.
    cbn [negb Z.eqb]. unfold bind, luaL_checkstring, bind.
    match goal with
    | |- context [lua_tostring (-1) ?S] =>
        destruct (lua_tostring_top S [] err eq_refl) as [v' ->]
    end.
    rewrite Hm. reflexivity. }
  rewrite Hmain. split; reflexivity.
Qed.

Lemma main_script_error_with_text_witness :
  exit_code (CallingLuaFunction.main string_raising_env) = Some (-1)%Z
  /\ history (CallingLuaFunction.main string_raising_env) =
       [EvPCall (VFunction 0) 0 LUA_MULTRET 0;
        EvStdout [Lit "Error: "; Lit "calling-lua-function.lua:11: failed";
                  Lit newline]].
Proof.
  apply (main_script_error_with_text string_raising_env 0 ThrowRun
           (VString "calling-lua-function.lua:11: failed")
           ["[C]: in function 'error'";
            "calling-lua-function.lua:11: in function 'fail'"]
           ∅);
    reflexivity.
Defined.

(** X5.  When the script raises anything else (a table, [nil], ...) while it is
    loaded, [luaL_checkstring] in [main] itself raises, outside any
    protected call: the process aborts instead of returning [-1], and
    nothing is printed on standard output. *)
Theorem main_script_error_without_text_panics env c t err frames g :
  can_allocate env = true ->
  load_file env "calling-lua-function.lua" = Compiled c ->
  closures env c [] (stdlib env ∪ ∅) = (Throws t err frames, g) ->
  text_of err = None ->
  exit_code (CallingLuaFunction.main env) = None
  /\ exists e,
       history (CallingLuaFunction.main env) =
         [EvPCall (VFunction c) 0 LUA_MULTRET 0; EvPanic e].
Proof.
  intros Hc Hload Hf Hm.
  assert (Hmain : exists e,
            CallingLuaFunction.main env =
              mkProcess None [EvPCall (VFunction c) 0 LUA_MULTRET 0; EvPanic e]).
  { unfold CallingLuaFunction.main, luaL_newstate. rewrite Hc.
    unfold run, bind at 1 2. unfold luaL_openlibs.
    rewrite (luaL_dofile_raises env _ c t err frames g) by done.
    cbn [negb Z.eqb]. unfold bind, luaL_checkstring, bind.
    match goal with
    | |- context [lua_tostring (-1) ?S] =>
        destruct (lua_tostring_top S [] err eq_refl) as [v' ->]
    end.
    rewrite Hm. eexists. reflexivity. }
  destruct Hmain as [e ->]. split; [reflexivity |]. by exists e.
Qed.

Lemma main_script_error_without_text_panics_witness :
  exit_code (CallingLuaFunction.main table_raising_env) = None
  /\ exists e,
       history (CallingLuaFunction.main table_raising_env) =
         [EvPCall (VFunction 0) 0 LUA_MULTRET 0; EvPanic e].
Proof.
  apply (main_script_error_without_text_panics table_raising_env 0 ThrowRun
           (VTable 0) [] ∅);
    reflexivity.
Defined.

(** X3.  [hello-world] never ends in a panic: its only script runs under
    [lua_pcall], so whatever the environment and the script, [main] returns
    [0] or [-1]. *)
Theorem hello_world_never_aborts env :
  exit_code (HelloWorld.main env) = Some 0%Z
  \/ exit_code (HelloWorld.main env) = Some (-1)%Z.
Proof.
  unfold HelloWorld.main, luaL_newstate.
  destruct (can_allocate env); [| by right].
  unfold run, bind, luaL_openlibs, luaL_dostring, luaL_loadstring, bind.
  destruct (load_string env "print('Hello world!')") as [c | st msg]; cbn [load].
  - unfold bind, push, ret. change (LUA_OK =? 0)%Z with true. cbv beta iota.
    erewrite (lua_pcall_frame HelloWorld.cfunctions _ [] (VFunction c) [])
      by reflexivity.
    cbn [invoke emit set_stack set_globals funcs globals stack].
    destruct (closures env c [] (stdlib env ∪ ∅)) as [[rs | t err frames] g].
    + by left.
    + change (0 =? 0)%Z with true. cbv iota. destruct t; by right.
  - unfold bind, push, ret. cbv beta.
    destruct (st =? 0)%Z; [| by right].
    erewrite (lua_pcall_frame HelloWorld.cfunctions _ [] (VString msg) [])
      by reflexivity.
    by right.
Qed.
